(** * Agent scraper API: enrichment pipeline and match evaluator

    A shallow embedding of the request handlers of [main.py] (and of the
    detail loop of [scraper_mcp.py]) together with the properties the
    specification states about them.

    Conventions of the embedding:
    - a Python [str] is a [string]; its characters are the code points
      U+0000..U+00FF, which is where [lower], [strip] and the regular
      expression class [\s] are modelled;
    - [Optional[T]] is [option T]; [None] is [None];
    - Python truthiness is written out ([truthy], [truthy_list]) and
      [a or b] is [py_or];
    - the browser-driven scrapers are collaborators: every call of one is
      answered by an oracle, and calls are recorded so that "no fetch
      happened" can be stated. *)

From Stdlib Require Import Ascii String.
From stdpp Require Import base tactics option list strings relations pretty.

Local Open Scope string_scope.
Local Open Scope list_scope.
Local Open Scope nat_scope.

(** ** Python values *)

Module Py.

(** [bool(s)] for an [Optional[str]]: [None] and the empty string are falsy. *)
Definition truthy (s : option string) : bool :=
  match s with
  | Some (String _ _) => true
  | _ => false
  end.

(** [bool(l)] for an [Optional[List[str]]]: [None] and [[]] are falsy. *)
Definition truthy_list (l : option (list string)) : bool :=
  match l with
  | Some (_ :: _) => true
  | _ => false
  end.

(** [s or <empty string>] for an [Optional[str]]. *)
Definition or_empty (s : option string) : string :=
  match s with
  | Some (String _ _ as v) => v
  | _ => EmptyString
  end.

(** [a or b]: [a] when it is truthy, [b] otherwise. *)
Definition py_or {A : Type} (is_truthy : A → bool) (a b : A) : A :=
  if is_truthy a then a else b.

(** [str.isspace] on one character (Py_UNICODE_ISSPACE below U+0100):
    TAB..CR, FS..US, SPACE, NEL and NBSP. *)
Definition isspace (c : ascii) : bool :=
  let n := nat_of_ascii c in
  (((9 <=? n) && (n <=? 13)) || ((28 <=? n) && (n <=? 32))
   || (n =? 133) || (n =? 160))%nat.

(** [str.lower] on one character: A-Z and the Latin-1 capitals
    U+00C0..U+00DE (without the multiplication sign U+00D7) move up by 32. *)
Definition lower_char (c : ascii) : ascii :=
  let n := nat_of_ascii c in
  if (((65 <=? n) && (n <=? 90))
      || ((192 <=? n) && (n <=? 222) && negb (n =? 215)))%nat
  then ascii_of_nat (n + 32) else c.

Fixpoint lower (s : string) : string :=
  match s with
  | EmptyString => EmptyString
  | String c s' => String (lower_char c) (lower s')
  end.

(** [str.lstrip()] *)
Fixpoint lstrip (s : string) : string :=
  match s with
  | EmptyString => EmptyString
  | String c s' => if isspace c then lstrip s' else s
  end.

(** [str.rstrip()]: a whitespace character is dropped when nothing but
    whitespace follows it. *)
Fixpoint rstrip (s : string) : string :=
  match s with
  | EmptyString => EmptyString
  | String c s' =>
      match rstrip s' with
      | EmptyString => if isspace c then EmptyString else String c EmptyString
      | r => String c r
      end
  end.

(** [str.strip()] *)
Definition strip (s : string) : string := rstrip (lstrip s).

(** [re.sub(cls, '', s)] for a one-character class [cls]: every
    character of the class is deleted. *)
Fixpoint re_sub_class (cls : ascii → bool) (s : string) : string :=
  match s with
  | EmptyString => EmptyString
  | String c s' =>
      if cls c then re_sub_class cls s' else String c (re_sub_class cls s')
  end.

(** Every character of [s] satisfies [p]. *)
Fixpoint all_chars (p : ascii → bool) (s : string) : bool :=
  match s with
  | EmptyString => true
  | String c s' => p c && all_chars p s'
  end.

(** [s.startswith(p)], returning what follows the prefix. *)
Fixpoint strip_prefix (p s : string) : option string :=
  match p, s with
  | EmptyString, _ => Some s
  | String a p', String b s' =>
      if Ascii.eqb a b then strip_prefix p' s' else None
  | String _ _, EmptyString => None
  end.

End Py.

Import Py.

(** ** The record model ([scraper.py], [AgentInfo]) *)

Record AgentInfo := mkAgentInfo {
  name : option string;
  location : option string;
  profile_url : option string;
  phone : option string;
  email : option string;
  bio : option string;
  specialties : option (list string);
  languages : option (list string);
  years_experience : option string;
  image_url : option string;
  office : option string;
  license : option string;
  website : option string;
  facebook : option string;
  instagram : option string
}.

(** [AgentInfo()] with every field at its default. *)
Definition AgentInfo_default : AgentInfo :=
  mkAgentInfo None None None None None None None None None None None None
              None None None.

(** [main.py], [AgentVerificationRequest] *)
Record AgentVerificationRequest := mkRequest {
  req_name : option string;
  req_email : option string;
  req_phone : option string;
  req_license : option string
}.

(** ** Normalisation helpers ([main.py] lines 236-256) *)

Definition normalize_string (s : option string) : option string :=
  match s with
  | Some (String _ _ as v) => Some (strip (lower v))
  | _ => None
  end.

(** The class [[\s\-\(\)\+]] of [normalize_phone]. *)
Definition phone_formatting (c : ascii) : bool :=
  isspace c || Ascii.eqb c "-" || Ascii.eqb c "(" || Ascii.eqb c ")"
  || Ascii.eqb c "+".

Definition normalize_phone (phone : option string) : option string :=
  match phone with
  | Some (String _ _ as v) =>
      let normalized := re_sub_class phone_formatting v in
      Some (lower normalized)
  | _ => None
  end.

Definition normalize_email (email : option string) : option string :=
  match email with
  | Some (String _ _ as v) => Some (strip (lower v))
  | _ => None
  end.

(** ** The match evaluator ([main.py] lines 259-304) *)

(** The two counters of [agent_matches]. *)
Record counters := mkCounters { match_count : nat; total_fields : nat }.

(** One [if provided.f: ...] block of [agent_matches]: the field counts as
    supplied when it is truthy, and as matched when both normalised values
    are truthy and equal. *)
Definition check_field (normalize : option string → option string)
    (provided scraped : option string) (st : counters) : counters :=
  if truthy provided then
    let st := mkCounters (match_count st) (total_fields st + 1) in
    let provided_n := normalize provided in
    let scraped_n := normalize scraped in
    if truthy provided_n && truthy scraped_n
       && bool_decide (provided_n = scraped_n)
    then mkCounters (match_count st + 1) (total_fields st)
    else st
  else st.

Definition agent_matches (provided : AgentVerificationRequest)
    (scraped : AgentInfo) : bool :=
  let st := mkCounters 0 0 in
  let st := check_field normalize_string (req_name provided) (name scraped) st in
  let st := check_field normalize_email (req_email provided) (email scraped) st in
  let st := check_field normalize_phone (req_phone provided) (phone scraped) st in
  let st := check_field normalize_string (req_license provided) (license scraped) st in
  if (total_fields st =? 0)%nat then false
  else ((match_count st =? total_fields st) && (0 <? match_count st))%nat.

(** The search loop of [verify_agent] (lines 340-344): the first scraped
    agent that matches, [None] when the loop runs to its end. *)
Fixpoint find_match (agent_details : AgentVerificationRequest)
    (scraped_agents : list AgentInfo) : option AgentInfo :=
  match scraped_agents with
  | [] => None
  | agent :: rest =>
      if agent_matches agent_details agent then Some agent
      else find_match agent_details rest
  end.

(** ** Collaborators and HTTP results *)

(** What a call of a scraper does: it raises, or it returns a value. *)
Inductive outcome (A : Type) : Type :=
  | Raised (e : string)
  | Returned (a : A).
Arguments Raised {A} e.
Arguments Returned {A} a.

(** What a request handler does: it answers with a body, or it raises
    [HTTPException(status_code, detail)]. *)
Inductive http_result (A : Type) : Type :=
  | Response (body : A)
  | HTTPException (status_code : nat) (detail : string).
Arguments Response {A} body.
Arguments HTTPException {A} status_code detail.

(** The calls a handler makes to the scrapers of [scraper.py]. *)
Inductive call : Type :=
  | scrape_agents_call (search_label : string)
  | scrape_agent_profile_call (profile_id : string)
  | scrape_local_agents_page_call (base_url : string).

(** ** [POST /verify-agent] ([main.py] lines 307-364) *)

Record AgentVerificationResponse := mkVerification {
  is_match : bool;
  verification_message : string;
  matched_agent : option AgentInfo;
  provided_details : AgentVerificationRequest
}.

(** [any([...])] over optional strings. *)
Definition any (l : list (option string)) : bool := existsb truthy l.

(** The handler, with the page scraper as an oracle; the second component
    lists the scraper calls made, in order. *)
Definition verify_agent
    (scrape_local_agents_page : string → outcome (list AgentInfo))
    (agent_details : AgentVerificationRequest) (base_url : string)
    : http_result AgentVerificationResponse * list call :=
  if negb (any [req_name agent_details; req_email agent_details;
                req_phone agent_details; req_license agent_details])
  then (HTTPException 400
          "At least one field (name, email, phone, or license) must be provided",
        [])
  else
    match scrape_local_agents_page base_url with
    | Raised e =>
        (HTTPException 500 ("Error verifying agent: " +:+ e),
         [scrape_local_agents_page_call base_url])
    | Returned scraped_agents =>
        (match find_match agent_details scraped_agents with
         | Some agent =>
             Response (mkVerification true "Agent details match found on website"
                         (Some agent) agent_details)
         | None =>
             Response (mkVerification false "Agent details not found on website"
                         None agent_details)
         end,
         [scrape_local_agents_page_call base_url])
    end.

(** ** Profile identifiers: [re.search(r'/profile/([^/?]+)', url)] *)

(** The class [[^/?]]. *)
Definition id_char (c : ascii) : bool :=
  negb (Ascii.eqb c "/" || Ascii.eqb c "?").

(** The longest prefix of [s] made of characters of [p] (a greedy [p*]). *)
Fixpoint take_while (p : ascii → bool) (s : string) : string :=
  match s with
  | EmptyString => EmptyString
  | String c s' => if p c then String c (take_while p s') else EmptyString
  end.

(** The pattern anchored at the start of [s]: the literal, then one or more
    identifier characters, as many as there are. *)
Definition match_profile_here (s : string) : option string :=
  match strip_prefix "/profile/" s with
  | Some rest =>
      match take_while id_char rest with
      | EmptyString => None
      | id => Some id
      end
  | None => None
  end.

(** [re.search]: the match at the leftmost position that has one; the
    result is [match.group(1)]. *)
Fixpoint re_search_profile (s : string) : option string :=
  match match_profile_here s with
  | Some id => Some id
  | None =>
      match s with
      | EmptyString => None
      | String _ s' => re_search_profile s'
      end
  end.

(** ** The enrichment unit ([main.py] lines 130-167) *)

(** The merge of lines 145-161: [detailed_info.f or agent.f] for every field
    but [profile_url]. *)
Definition merge (detailed_info agent : AgentInfo) : AgentInfo :=
  {| name := py_or truthy (name detailed_info) (name agent);
     location := py_or truthy (location detailed_info) (location agent);
     profile_url := profile_url agent;
     phone := py_or truthy (phone detailed_info) (phone agent);
     email := py_or truthy (email detailed_info) (email agent);
     bio := py_or truthy (bio detailed_info) (bio agent);
     specialties :=
       py_or truthy_list (specialties detailed_info) (specialties agent);
     languages := py_or truthy_list (languages detailed_info) (languages agent);
     years_experience :=
       py_or truthy (years_experience detailed_info) (years_experience agent);
     image_url := py_or truthy (image_url detailed_info) (image_url agent);
     office := py_or truthy (office detailed_info) (office agent);
     license := py_or truthy (license detailed_info) (license agent);
     website := py_or truthy (website detailed_info) (website agent);
     facebook := py_or truthy (facebook detailed_info) (facebook agent);
     instagram := py_or truthy (instagram detailed_info) (instagram agent) |}.

(** What one run of [get_detailed_info] does: the record it returns, the
    calls of [scrape_agent_profile] it made, and what it appended to the
    shared list [failed_profiles]. *)
Record unit_result := mkUnit {
  output : AgentInfo;
  fetched : list call;
  appended : list (option string)
}.

(** The body of [get_detailed_info], under the permit.  A returned
    [AgentInfo] object is always truthy, so [if detailed_info:] separates
    [None] from a record. *)
Definition get_detailed_info
    (scrape_agent_profile : string → outcome (option AgentInfo))
    (agent : AgentInfo) : unit_result :=
  let url := or_empty (profile_url agent) in
  match re_search_profile url with
  | Some profile_id =>
      match scrape_agent_profile profile_id with
      | Returned (Some detailed_info) =>
          mkUnit (merge detailed_info agent)
                 [scrape_agent_profile_call profile_id] []
      | Returned None =>
          mkUnit agent [scrape_agent_profile_call profile_id] []
      | Raised e =>
          mkUnit agent [scrape_agent_profile_call profile_id]
                 [profile_url agent]
      end
  | None => mkUnit agent [] []
  end.

(** ** The batch ([main.py] lines 124-171) *)

(** The detail scraper seen from the batch: the unit at input position [i]
    makes at most one call, and [scrape_agent_profile i id] is what that call
    does.  Indexing by the position lets two calls with the same identifier
    end differently. *)
Definition profile_scraper := nat → string → outcome (option AgentInfo).

(** [tasks = [get_detailed_info(agent) for agent in agents]] followed by
    [asyncio.gather( *tasks )]: one result per task, in the order of the
    tasks. *)
Definition gather (scrape_agent_profile : profile_scraper)
    (agents : list AgentInfo) : list unit_result :=
  imap (λ i agent, get_detailed_info (scrape_agent_profile i) agent) agents.

(** [detailed_agents] after the gather. *)
Definition detailed_agents (scrape_agent_profile : profile_scraper)
    (agents : list AgentInfo) : list AgentInfo :=
  output <$> gather scrape_agent_profile agents.

(** [failed_profiles] after the gather, when the units settle in input
    order; another completion order gives a permutation of it (see
    [pool_step] below). *)
Definition failed_profiles (scrape_agent_profile : profile_scraper)
    (agents : list AgentInfo) : list (option string) :=
  mjoin (appended <$> gather scrape_agent_profile agents).

(** The calls of [scrape_agent_profile] made by the batch. *)
Definition profile_calls (scrape_agent_profile : profile_scraper)
    (agents : list AgentInfo) : list call :=
  mjoin (fetched <$> gather scrape_agent_profile agents).

(** ** [GET /scrape-agents-full] ([main.py] lines 99-184) *)

Record ScrapeResponse := mkScrapeResponse {
  success : bool;
  total_agents : nat;
  agents : list AgentInfo;
  message : option string
}.

(** The [message] of lines 173-175. *)
Definition full_details_message (n_agents n_failed : nat) : string :=
  let message :=
    "Successfully scraped " +:+ pretty n_agents +:+ " agents with full details" in
  if (n_failed =? 0)%nat then message
  else message +:+ " (" +:+ pretty n_failed +:+ " profiles failed to load details)".

Definition get_all_agents_full
    (scrape_agents : string → outcome (list AgentInfo))
    (scrape_agent_profile : profile_scraper)
    (search_label : string) : http_result ScrapeResponse :=
  match scrape_agents search_label with
  | Raised e =>
      HTTPException 500 ("Error scraping agents with full details: " +:+ e)
  | Returned [] =>
      Response (mkScrapeResponse true 0 [] (Some "No agents found"))
  | Returned agents =>
      let detailed := detailed_agents scrape_agent_profile agents in
      let failed := failed_profiles scrape_agent_profile agents in
      Response (mkScrapeResponse true (length detailed) detailed
                  (Some (full_details_message (length detailed) (length failed))))
  end.

(** ** The units under [asyncio.Semaphore(3)]

    The tasks of the gather run on one event loop.  A task is suspended at
    two places only: where it enters [async with semaphore] while no permit
    is free, and where it awaits [scrape_agent_profile].  Between the two,
    and from the return of the scraper to the exit of the block, it runs
    without interruption.  The model lets any waiting task take a free
    permit (the order in which the loop wakes the waiters is left open) and
    every call of the scraper end, by a value or by an exception (a call
    that hangs is outside the model). *)

(** The permits of the semaphore of line 128. *)
Definition semaphore_permits : nat := 3.

(** A task of the gather: it waits for a permit, it is inside
    [async with semaphore] (where the call of [scrape_agent_profile] is
    awaited), or it has returned. *)
Inductive task : Type :=
  | Waiting
  | Running
  | Finished (result : AgentInfo).

(** The state shared by the tasks: the value of the semaphore, the tasks in
    input order, and the list [failed_profiles]. *)
Record pool := mkPool {
  semaphore : nat;
  tasks : list task;
  failed : list (option string)
}.

Definition pool_init (agents : list AgentInfo) : pool :=
  mkPool semaphore_permits (replicate (length agents) Waiting) [].

(** What the event loop does next. *)
Inductive label : Type :=
  | Acquire (i : nat)
  | Release (i : nat).

(** One step of the event loop.  [Acquire i]: task [i] enters
    [async with semaphore], which needs a positive value and takes one
    permit.  [Release i]: task [i] leaves the block, on whichever path
    [get_detailed_info] takes, gives the permit back, and its result is
    stored at position [i]. *)
Inductive pool_step (scrape_agent_profile : profile_scraper)
    (agents : list AgentInfo) : label → pool → pool → Prop :=
  | step_acquire i s :
      tasks s !! i = Some Waiting →
      0 < semaphore s →
      pool_step scrape_agent_profile agents (Acquire i) s
        (mkPool (semaphore s - 1) (<[i := Running]> (tasks s)) (failed s))
  | step_release i s agent :
      tasks s !! i = Some Running →
      agents !! i = Some agent →
      pool_step scrape_agent_profile agents (Release i) s
        (let r := get_detailed_info (scrape_agent_profile i) agent in
         mkPool (semaphore s + 1) (<[i := Finished (output r)]> (tasks s))
                (failed s ++ appended r)).

(** A step, whatever its label. *)
Definition pool_next (scrape_agent_profile : profile_scraper)
    (agents : list AgentInfo) (s s' : pool) : Prop :=
  ∃ l, pool_step scrape_agent_profile agents l s s'.

(** The states the event loop can be in. *)
Definition reachable (scrape_agent_profile : profile_scraper)
    (agents : list AgentInfo) (s : pool) : Prop :=
  rtc (pool_next scrape_agent_profile agents) (pool_init agents) s.

Definition is_running (t : task) : bool :=
  match t with Running => true | _ => false end.

Definition task_result (t : task) : option AgentInfo :=
  match t with Finished r => Some r | _ => None end.

(** The tasks that hold a permit. *)
Definition holders (s : pool) : nat :=
  length (filter (λ t, is_running t = true) (tasks s)).

(** Whether a unit calls [scrape_agent_profile] at all. *)
Definition fetches (agent : AgentInfo) : bool :=
  bool_decide (is_Some (re_search_profile (or_empty (profile_url agent)))).

(** The detail fetches in flight: the running tasks whose summary has an
    identifier. *)
Definition in_flight (agents : list AgentInfo) (s : pool) : nat :=
  length (filter (λ p, is_running p.2 = true ∧ fetches p.1 = true)
            (zip agents (tasks s))).

(** What [await asyncio.gather( *tasks )] returns once every task has
    returned; [None] while one has not. *)
Definition gathered (s : pool) : option (list AgentInfo) :=
  mapM task_result (tasks s).

(** ** The detail loop of [scraper_mcp.py] (lines 169-239) *)

Module ScraperMcp.

(** An entry of [agent_links_data]: the object built by the extraction
    script ([url], [name], [imageUrl]). *)
Record agent_data := mkAgentData {
  url : string;
  data_name : option string;
  imageUrl : option string
}.

(** The basic record of lines 209-213 and 217-221. *)
Definition basic_info (agent_data : agent_data) : AgentInfo :=
  {| name := data_name agent_data;
     location := None;
     profile_url := Some (url agent_data);
     phone := None; email := None; bio := None;
     specialties := None; languages := None; years_experience := None;
     image_url := imageUrl agent_data;
     office := None; license := None; website := None; facebook := None;
     instagram := None |}.

(** [get_detailed_info] of [scraper_mcp.py]: [None] when the URL has no
    identifier. *)
Definition get_detailed_info
    (scrape_agent_profile : string → outcome (option AgentInfo))
    (agent_data : agent_data) : option AgentInfo :=
  let profile_url := url agent_data in
  match re_search_profile profile_url with
  | None => None
  | Some profile_id =>
      match scrape_agent_profile profile_id with
      | Returned (Some detailed_info) =>
          Some {| name := py_or truthy (name detailed_info) (data_name agent_data);
                  location := location detailed_info;
                  profile_url := Some profile_url;
                  phone := phone detailed_info;
                  email := email detailed_info;
                  bio := bio detailed_info;
                  specialties := specialties detailed_info;
                  languages := languages detailed_info;
                  years_experience := years_experience detailed_info;
                  image_url :=
                    py_or truthy (image_url detailed_info) (imageUrl agent_data);
                  office := office detailed_info;
                  license := license detailed_info;
                  website := website detailed_info;
                  facebook := facebook detailed_info;
                  instagram := instagram detailed_info |}
      | Returned None => Some (basic_info agent_data)
      | Raised e => Some (basic_info agent_data)
      end
  end.

(** Lines 225-239: gather, then keep the results that are not [None]. *)
Definition detailed_agents (scrape_agent_profile : profile_scraper)
    (agent_links_data : list agent_data) : list AgentInfo :=
  omap id (imap (λ i agent_data,
                   get_detailed_info (scrape_agent_profile i) agent_data)
             agent_links_data).

(** The same link as a summary record, the input of the direct loop:
    [profile_url], [name] and [image_url] filled in, as in lines 209-213. *)
Definition summary (agent_data : agent_data) : AgentInfo :=
  basic_info agent_data.

End ScraperMcp.

(** ** Vocabulary of the statements *)

(** The test of one supplied field, as [agent_matches] writes it. *)
Definition field_ok (normalize : option string → option string)
    (provided scraped : option string) : bool :=
  truthy (normalize provided) && truthy (normalize scraped)
  && bool_decide (normalize provided = normalize scraped).

(** The query fields, in the order [agent_matches] reads them. *)
Definition query_fields (q : AgentVerificationRequest) : list (option string) :=
  [req_name q; req_email q; req_phone q; req_license q].

(** The query supplies at least one non-empty field. *)
Definition supplied (q : AgentVerificationRequest) : Prop :=
  ∃ f, f ∈ query_fields q ∧ truthy f = true.

(** The query fields that are supplied and the candidate lacks. *)
Definition lacks_supplied_field (q : AgentVerificationRequest) (c : AgentInfo)
    : Prop :=
  (truthy (req_name q) = true ∧ name c = None)
  ∨ (truthy (req_email q) = true ∧ email c = None)
  ∨ (truthy (req_phone q) = true ∧ phone c = None)
  ∨ (truthy (req_license q) = true ∧ license c = None).

(** A value is present: it is neither null nor empty. *)
Definition present (v : option string) : Prop := truthy v = true.

(** A query field, when it is supplied, agrees with the candidate's: the
    candidate's normalised value is present and is the query's normalised
    value. *)
Definition field_agrees (normalize : option string → option string)
    (provided scraped : option string) : Prop :=
  present provided →
  present (normalize scraped) ∧ normalize provided = normalize scraped.

(** A candidate is a full match of a query. *)
Definition matches (q : AgentVerificationRequest) (c : AgentInfo) : Prop :=
  supplied q
  ∧ field_agrees normalize_string (req_name q) (name c)
  ∧ field_agrees normalize_email (req_email q) (email c)
  ∧ field_agrees normalize_phone (req_phone q) (phone c)
  ∧ field_agrees normalize_string (req_license q) (license c).

(** A field value that is not empty and holds whitespace only. *)
Definition whitespace_only (f : option string) : Prop :=
  ∃ s, f = Some s ∧ s ≠ EmptyString ∧ all_chars isspace s = true.

(** A profile URL from which an identifier can be derived: it holds
    [/profile/] followed by a character other than [/] and [?]. *)
Definition has_identifier (url : option string) : Prop :=
  ∃ s pre c rest,
    url = Some s ∧ s = pre +:+ "/profile/" +:+ String c rest
    ∧ id_char c = true.

(** What the call of [scrape_agent_profile] made for a summary does; [None]
    when the unit makes no call. *)
Definition detail_fetch
    (scrape_agent_profile : string → outcome (option AgentInfo))
    (agent : AgentInfo) : option (outcome (option AgentInfo)) :=
  scrape_agent_profile <$> re_search_profile (or_empty (profile_url agent)).

(** The detail fetch of a summary raises. *)
Definition fetch_raises
    (scrape_agent_profile : string → outcome (option AgentInfo))
    (agent : AgentInfo) : bool :=
  match detail_fetch scrape_agent_profile agent with
  | Some (Raised _) => true
  | _ => false
  end.

(** The detail fetch of a summary returns nothing. *)
Definition fetch_empty
    (scrape_agent_profile : string → outcome (option AgentInfo))
    (agent : AgentInfo) : bool :=
  match detail_fetch scrape_agent_profile agent with
  | Some (Returned None) => true
  | _ => false
  end.

(** The summaries of a batch whose detail fetch raises. *)
Definition raised_count (scrape_agent_profile : profile_scraper)
    (agents : list AgentInfo) : nat :=
  sum_list (imap (λ i agent,
                    if fetch_raises (scrape_agent_profile i) agent
                    then 1 else 0) agents).

(** The summaries of a batch whose detail fetch does not complete
    successfully: it raises or it returns nothing. *)
Definition unsuccessful_count (scrape_agent_profile : profile_scraper)
    (agents : list AgentInfo) : nat :=
  sum_list (imap (λ i agent,
                    if fetch_raises (scrape_agent_profile i) agent
                       || fetch_empty (scrape_agent_profile i) agent
                    then 1 else 0) agents).

(** The steps a task still has to take. *)
Definition weight (t : task) : nat :=
  match t with
  | Waiting => 2
  | Running => 1
  | Finished _ => 0
  end.

(** The steps the event loop still has to take. *)
Definition remaining_steps (s : pool) : nat := sum_list (weight <$> tasks s).

(** What a unit has appended to [failed_profiles] so far. *)
Definition settled (u : unit_result) (t : task) : list (option string) :=
  match t with
  | Finished _ => appended u
  | _ => []
  end.

(** What holds of the pool in every state the event loop reaches: one task
    per summary; the permits taken are those of the running tasks; a stored
    result is the unit's result; and [failed_profiles] holds what the
    finished units appended, in some order. *)
Definition pool_inv (scrape_agent_profile : profile_scraper)
    (agents : list AgentInfo) (s : pool) : Prop :=
  length (tasks s) = length agents
  ∧ semaphore s + holders s = semaphore_permits
  ∧ (∀ i r, tasks s !! i = Some (Finished r) →
            output <$> gather scrape_agent_profile agents !! i = Some r)
  ∧ failed s ≡ₚ
      mjoin (zip_with settled (gather scrape_agent_profile agents) (tasks s)).

(** An empty value read as a null one, in the fields that only the detail
    record fills ([name], [profile_url] and [image_url] are left as they
    are). *)
Definition null_if_empty (a : AgentInfo) : AgentInfo :=
  {| name := name a;
     location := py_or truthy (location a) None;
     profile_url := profile_url a;
     phone := py_or truthy (phone a) None;
     email := py_or truthy (email a) None;
     bio := py_or truthy (bio a) None;
     specialties := py_or truthy_list (specialties a) None;
     languages := py_or truthy_list (languages a) None;
     years_experience := py_or truthy (years_experience a) None;
     image_url := image_url a;
     office := py_or truthy (office a) None;
     license := py_or truthy (license a) None;
     website := py_or truthy (website a) None;
     facebook := py_or truthy (facebook a) None;
     instagram := py_or truthy (instagram a) None |}.

(** The unit of the direct pipeline made a call of [scrape_agent_profile]. *)
Definition has_fetched (u : unit_result) : Prop := fetched u ≠ [].

#[global] Instance has_fetched_dec u : Decision (has_fetched u).
Proof. unfold has_fetched. apply _. Defined.

(** ** Example data *)

(** A scraped agent whose name is one space. *)
Definition blank_agent : AgentInfo :=
  mkAgentInfo (Some " ") None None None None None None None None None None
              None None None None.

(** The two phone numbers of the example of the specification. *)
Definition example_phone (c : AgentInfo) : Prop :=
  phone c = Some "555-123-4567" ∨ phone c = Some "+5551234567".

Definition example_phone_query : AgentVerificationRequest :=
  mkRequest None None (Some "(555) 123-4567") None.

(** Example records. *)
Definition summary_of (url n : string) : AgentInfo :=
  mkAgentInfo (Some n) None (Some url) None None None None None None None
              None None None None None.

Definition jane : AgentInfo :=
  summary_of "https://onereal.com/profile/jane?tab=about" "Jane Doe".

Definition sam : AgentInfo := summary_of "https://onereal.com/agents" "Sam".

Definition jane_detail : AgentInfo :=
  mkAgentInfo (Some "Jane A. Doe") (Some "Austin, TX")
              (Some "https://onereal.com/profile/jane") (Some "555-123-4567")
              (Some "jane@x.com") (Some EmptyString) (Some ["Condos"]) (Some [])
              None None None (Some "TX-1") None None None.

(** Detail scrapers that always return nothing, always raise, always
    return [jane_detail]. *)
Definition scrape_nothing : profile_scraper := λ _ _, Returned None.
Definition scrape_timeout : profile_scraper := λ _ _, Raised "Timeout".
Definition scrape_jane : profile_scraper := λ _ _, Returned (Some jane_detail).

(** A link whose URL has no identifier behind [/profile/]. *)
Definition bare_link : ScraperMcp.agent_data :=
  ScraperMcp.mkAgentData "https://onereal.com/profile/" (Some "Jane Doe") None.

(** A link with an identifier. *)
Definition jane_link : ScraperMcp.agent_data :=
  ScraperMcp.mkAgentData "https://onereal.com/profile/jane" (Some "Jane Doe")
    None.

(** No detail-only field of a record holds an empty string or list. *)
Definition no_empty_value (a : AgentInfo) : Prop :=
  location a ≠ Some EmptyString ∧ phone a ≠ Some EmptyString
  ∧ email a ≠ Some EmptyString ∧ bio a ≠ Some EmptyString
  ∧ specialties a ≠ Some [] ∧ languages a ≠ Some []
  ∧ years_experience a ≠ Some EmptyString ∧ office a ≠ Some EmptyString
  ∧ license a ≠ Some EmptyString ∧ website a ≠ Some EmptyString
  ∧ facebook a ≠ Some EmptyString ∧ instagram a ≠ Some EmptyString.

(** A detail scraper that raises for the third summary and returns
    [jane_detail] for the others. *)
Definition scrape_third_raises : profile_scraper :=
  λ i _, if (i =? 2)%nat then Raised "Timeout" else Returned (Some jane_detail).

(** * The rest of the request layer and of the link handling *)

(** ** [GET /scrape-agents] ([main.py] lines 54-74) *)

Definition get_all_agents
    (scrape_agents : string → outcome (list AgentInfo))
    (search_label : string) : http_result ScrapeResponse :=
  match scrape_agents search_label with
  | Returned agents =>
      Response (mkScrapeResponse true (length agents) agents
                  (Some ("Successfully scraped " +:+ pretty (length agents)
                         +:+ " agents")))
  | Raised e => HTTPException 500 ("Error scraping agents: " +:+ e)
  end.

(** ** [GET /scrape-profile/{profile_id}] ([main.py] lines 77-96)

    The 404 is raised inside the [try]; [except HTTPException: raise] stands
    before [except Exception], so it leaves the handler as it is. *)
Definition get_agent_profile
    (scrape_agent_profile : string → outcome (option AgentInfo))
    (profile_id : string) : http_result AgentInfo :=
  match scrape_agent_profile profile_id with
  | Returned (Some agent_info) => Response agent_info
  | Returned None =>
      HTTPException 404 ("Agent profile '" +:+ profile_id +:+ "' not found")
  | Raised e => HTTPException 500 ("Error scraping profile: " +:+ e)
  end.

(** ** [GET /scrape-agents-full-mcp] ([main.py] lines 187-209) *)

Definition get_all_agents_full_mcp
    (scrape_agents_full_mcp : string → outcome (list AgentInfo))
    (search_label : string) : http_result ScrapeResponse :=
  match scrape_agents_full_mcp search_label with
  | Returned agents =>
      Response (mkScrapeResponse true (length agents) agents
                  (Some ("Successfully scraped " +:+ pretty (length agents)
                         +:+ " agents with full details using Playwright MCP")))
  | Raised e =>
      HTTPException 500 ("Error scraping agents with Playwright MCP: " +:+ e)
  end.

(** ** [GET /scrape-local-agents] ([main.py] lines 212-233) *)

Definition get_local_agents
    (scrape_local_agents_page : string → outcome (list AgentInfo))
    (base_url : string) : http_result ScrapeResponse :=
  match scrape_local_agents_page base_url with
  | Returned agents =>
      Response (mkScrapeResponse true (length agents) agents
                  (Some ("Successfully scraped " +:+ pretty (length agents)
                         +:+ " agents from page")))
  | Raised e => HTTPException 500 ("Error scraping agents: " +:+ e)
  end.

(** ** [POST /verify-agent-mcp] ([main.py] lines 367-426)

    The import of [scrape_local_agents_page_mcp] at the head of the [try] is
    taken to succeed. *)
Definition verify_agent_mcp
    (scrape_local_agents_page_mcp : string → outcome (list AgentInfo))
    (agent_details : AgentVerificationRequest) (base_url : string)
    : http_result AgentVerificationResponse * list call :=
  if negb (any [req_name agent_details; req_email agent_details;
                req_phone agent_details; req_license agent_details])
  then (HTTPException 400
          "At least one field (name, email, phone, or license) must be provided",
        [])
  else
    match scrape_local_agents_page_mcp base_url with
    | Raised e =>
        (HTTPException 500
           ("Error verifying agent with Playwright MCP: " +:+ e),
         [scrape_local_agents_page_call base_url])
    | Returned scraped_agents =>
        (match find_match agent_details scraped_agents with
         | Some agent =>
             Response (mkVerification true
                         "Agent details match found on website (via Playwright MCP)"
                         (Some agent) agent_details)
         | None =>
             Response (mkVerification false
                         "Agent details not found on website (via Playwright MCP)"
                         None agent_details)
         end,
         [scrape_local_agents_page_call base_url])
    end.

(** ** Links found in the page source ([scraper_mcp.py] lines 153-167) *)

(** [s.split(sep)] for a separator that is not empty: the pieces between
    the occurrences of [sep], found from left to right without overlap.
    [skip] counts the characters of an occurrence still to pass over. *)
Fixpoint split_from (sep : string) (skip : nat) (s : string) : list string :=
  match s with
  | EmptyString => [EmptyString]
  | String c s' =>
      match skip with
      | S k => split_from sep k s'
      | O =>
          match strip_prefix sep s with
          | Some _ =>
              EmptyString :: split_from sep (String.length sep - 1) s'
          | None =>
              match split_from sep 0 s' with
              | piece :: pieces => String c piece :: pieces
              | [] => [String c EmptyString]
              end
          end
      end
  end.

Definition split (sep s : string) : list string := split_from sep 0 s.

(** [match.split('/profile/')[-1].split('?')[0]] (also [scraper.py]
    line 149). *)
Definition link_profile_id (m : string) : string :=
  default EmptyString
    (head (split "?" (default EmptyString (last (split "/profile/" m))))).

(** [f"https://onereal.com/profile/{profile_id}"] (also [scraper.py]
    line 196). *)
Definition profile_page (profile_id : string) : string :=
  "https://onereal.com/profile/" +:+ profile_id.

(** The state of the loop of lines 157-167: the set [seen_urls] and the
    list [agent_links_data]. *)
Record links_state := mkLinks {
  seen_urls : list string;
  links : list ScraperMcp.agent_data
}.

(** One round of the loop. *)
Definition add_link (st : links_state) (m : string) : links_state :=
  match strip_prefix "/profile/" m with
  | Some _ =>
      let profile_id := link_profile_id m in
      let full_url := profile_page profile_id in
      if bool_decide (full_url ∈ seen_urls st) then st
      else mkLinks (full_url :: seen_urls st)
                   (links st ++ [ScraperMcp.mkAgentData full_url None None])
  | None => st
  end.

(** The loop over the matches of one page source, started with an empty
    [seen_urls]. *)
Definition fallback_links (agent_links_data : list ScraperMcp.agent_data)
    (matches : list string) : list ScraperMcp.agent_data :=
  links (foldl add_link (mkLinks [] agent_links_data) matches).

(** ** Vocabulary of the further statements *)

(** [sep] stands somewhere in [s]. *)
Fixpoint occurs (sep s : string) : bool :=
  match strip_prefix sep s with
  | Some _ => true
  | None =>
      match s with
      | EmptyString => false
      | String _ s' => occurs sep s'
      end
  end.

(** The first character of [s] satisfies [p]. *)
Definition starts_with (p : ascii → bool) (s : string) : bool :=
  match s with
  | EmptyString => false
  | String c _ => p c
  end.

(** The request made of the identity fields of a record. *)
Definition request_of (c : AgentInfo) : AgentVerificationRequest :=
  mkRequest (name c) (email c) (phone c) (license c).

(** A field of a record can be compared: it is null or empty (and then not
    supplied), or its normal form is present. *)
Definition comparable (normalize : option string → option string)
    (f : option string) : Prop :=
  truthy f = true → present (normalize f).

(** No detail fetch of a batch returns a record. *)
Definition no_detail (scrape_agent_profile : profile_scraper)
    (batch : list AgentInfo) : Prop :=
  ∀ i agent detailed_info,
    batch !! i = Some agent →
    detail_fetch (scrape_agent_profile i) agent
    ≠ Some (Returned (Some detailed_info)).

(** The number of summaries of a batch for which a fetch is made. *)
Definition identified_count (batch : list AgentInfo) : nat :=
  length (filter (λ agent, fetches agent = true) batch).

(** An identifier can be derived from the URL of a link. *)
Definition link_identified (d : ScraperMcp.agent_data) : bool :=
  bool_decide (is_Some (re_search_profile (ScraperMcp.url d))).

(** The tail of [scrape_agents_full_mcp] ([scraper_mcp.py] lines 169-242):
    the links found are put through the detail loop; an exception raised
    inside the [try] before the loop is raised again with a prefix. *)
Definition scrape_agents_full_mcp_tail
    (agent_links_data : outcome (list ScraperMcp.agent_data))
    (scrape_agent_profile : profile_scraper) : outcome (list AgentInfo) :=
  match agent_links_data with
  | Returned links =>
      Returned (ScraperMcp.detailed_agents scrape_agent_profile links)
  | Raised e => Raised ("Error scraping agents with Playwright MCP: " +:+ e)
  end.

(** A character other than the question mark. *)
Definition not_question (c : ascii) : bool := negb (Ascii.eqb c "?").

(** The entry the loop of lines 157-167 makes for a match. *)
Definition link_of (m : string) : ScraperMcp.agent_data :=
  ScraperMcp.mkAgentData (profile_page (link_profile_id m)) None None.

(** What the loop has done after the matches [ms]: the entries added
    carry the URLs of [seen_urls], first seen first, without repetition, and
    they are the entries of the matches that start with [/profile/]. *)
Definition links_inv (base : list ScraperMcp.agent_data) (ms : list string)
    (st : links_state) : Prop :=
  ∃ added,
    links st = base ++ added
    ∧ ScraperMcp.url <$> added = reverse (seen_urls st)
    ∧ NoDup (seen_urls st)
    ∧ length added ≤ length ms
    ∧ ∀ d, d ∈ added ↔
           ∃ m, m ∈ ms ∧ is_Some (strip_prefix "/profile/" m) ∧ d = link_of m.

(** * Properties *)

(** ** Strings *)

Section Strings.

Lemma isspace_lower_char c : isspace c = true → lower_char c = c.
Proof.
  destruct c as [[] [] [] [] [] [] [] []]; vm_compute; congruence.
Qed.

Lemma phone_formatting_lower_char c :
  phone_formatting c = false → phone_formatting (lower_char c) = false.
Proof.
  destruct c as [[] [] [] [] [] [] [] []]; vm_compute; congruence.
Qed.

Lemma isspace_phone_formatting c :
  isspace c = true → phone_formatting c = true.
Proof. unfold phone_formatting. by intros ->. Qed.

Lemma lower_all_space s : all_chars isspace s = true → lower s = s.
Proof.
  induction s as [|c s IH]; simpl; [done|].
  intros [Hc Hs]%andb_prop. by rewrite isspace_lower_char, IH.
Qed.

Lemma lstrip_all_space s : all_chars isspace s = true → lstrip s = EmptyString.
Proof.
  induction s as [|c s IH]; simpl; [done|].
  intros [Hc Hs]%andb_prop. rewrite Hc. auto.
Qed.

Lemma strip_lower_all_space s :
  all_chars isspace s = true → strip (lower s) = EmptyString.
Proof.
  intros Hs. unfold strip. by rewrite lower_all_space, lstrip_all_space.
Qed.

Lemma re_sub_class_all cls s :
  all_chars cls s = true → re_sub_class cls s = EmptyString.
Proof.
  induction s as [|c s IH]; simpl; [done|].
  intros [Hc Hs]%andb_prop. rewrite Hc. auto.
Qed.

Lemma all_chars_impl (p q : ascii → bool) s :
  (∀ c, p c = true → q c = true) →
  all_chars p s = true → all_chars q s = true.
Proof.
  intros Hpq. induction s as [|c s IH]; simpl; [done|].
  intros [Hc Hs]%andb_prop. rewrite (Hpq _ Hc). auto.
Qed.

(** Nothing of the class is left after [re.sub]. *)
Lemma re_sub_class_clean cls s :
  all_chars (λ c, negb (cls c)) (re_sub_class cls s) = true.
Proof.
  induction s as [|c s IH]; simpl; [done|].
  destruct (cls c) eqn:Hc; simpl; [done|]. by rewrite Hc.
Qed.

Lemma lower_clean s :
  all_chars (λ c, negb (phone_formatting c)) s = true →
  all_chars (λ c, negb (phone_formatting c)) (lower s) = true.
Proof.
  induction s as [|c s IH]; simpl; [done|].
  intros [Hc Hs]%andb_prop. apply negb_true_iff in Hc.
  by rewrite (phone_formatting_lower_char _ Hc), IH.
Qed.

Lemma all_chars_In p s :
  all_chars p s = true ↔ ∀ c, In c (list_ascii_of_string s) → p c = true.
Proof.
  induction s as [|c s IH]; simpl.
  - split; [intros _ ? []|done].
  - rewrite andb_true_iff, IH. split.
    + intros [Hc Hs] c' [<-|Hin]; auto.
    + intros H. split; [|intros ??]; apply H; auto.
Qed.

End Strings.

(** ** The match evaluator *)

Section MatchEvaluator.

(** [agent_matches] without its counters: some field is supplied, and
    every supplied field passes its test. *)
Lemma agent_matches_unfold provided scraped :
  agent_matches provided scraped =
    any [req_name provided; req_email provided; req_phone provided;
         req_license provided]
    && implb (truthy (req_name provided))
         (field_ok normalize_string (req_name provided) (name scraped))
    && implb (truthy (req_email provided))
         (field_ok normalize_email (req_email provided) (email scraped))
    && implb (truthy (req_phone provided))
         (field_ok normalize_phone (req_phone provided) (phone scraped))
    && implb (truthy (req_license provided))
         (field_ok normalize_string (req_license provided) (license scraped)).
Proof.
  unfold agent_matches, check_field, any. cbn [existsb].
  fold (field_ok normalize_string (req_name provided) (name scraped)).
  fold (field_ok normalize_email (req_email provided) (email scraped)).
  fold (field_ok normalize_phone (req_phone provided) (phone scraped)).
  fold (field_ok normalize_string (req_license provided) (license scraped)).
  destruct (truthy (req_name provided)),
    (field_ok normalize_string (req_name provided) (name scraped)),
    (truthy (req_email provided)),
    (field_ok normalize_email (req_email provided) (email scraped)),
    (truthy (req_phone provided)),
    (field_ok normalize_phone (req_phone provided) (phone scraped)),
    (truthy (req_license provided)),
    (field_ok normalize_string (req_license provided) (license scraped));
    reflexivity.
Qed.

End MatchEvaluator.

Section MatchEvaluatorSpec.

Lemma truthy_Some_iff (o : option string) :
  truthy o = true ↔ ∃ v, o = Some v ∧ v ≠ EmptyString.
Proof.
  destruct o as [[|c v]|]; simpl; split; try done.
  - intros (v & [= <-] & Hv). done.
  - intros _. eauto.
  - intros (v & [= ] & _).
Qed.

Lemma field_ok_true normalize provided scraped :
  field_ok normalize provided scraped = true ↔
  present (normalize scraped) ∧ normalize provided = normalize scraped.
Proof.
  unfold field_ok, present. rewrite !andb_true_iff, bool_decide_eq_true. split.
  - tauto.
  - intros [Hs Heq]. rewrite Heq. auto.
Qed.

(** Two values agree in this sense exactly when they normalise to one and
    the same non-empty string. *)
Lemma field_ok_same_value normalize provided scraped :
  field_ok normalize provided scraped = true ↔
  ∃ v, v ≠ EmptyString ∧ normalize provided = Some v
       ∧ normalize scraped = Some v.
Proof.
  rewrite field_ok_true. unfold present. rewrite truthy_Some_iff. split.
  - intros [(v & Hv & Hne) Heq]. exists v. by rewrite Heq.
  - intros (v & Hne & -> & ->). eauto.
Qed.

Lemma implb_field_ok normalize provided scraped :
  implb (truthy provided) (field_ok normalize provided scraped) = true ↔
  field_agrees normalize provided scraped.
Proof.
  unfold field_agrees, present at 1. destruct (truthy provided); simpl.
  - rewrite field_ok_true. naive_solver.
  - split; [intros _ [=]|done].
Qed.

Lemma any_supplied q :
  any (query_fields q) = true ↔ supplied q.
Proof.
  unfold any, supplied. rewrite existsb_exists.
  by setoid_rewrite list_elem_of_In.
Qed.

(** [agent_matches] decides [matches]. *)
Lemma agent_matches_spec q c : agent_matches q c = true ↔ matches q c.
Proof.
  rewrite agent_matches_unfold, !andb_true_iff, !implb_field_ok.
  fold (query_fields q). rewrite any_supplied. unfold matches. tauto.
Qed.

Lemma agent_matches_false q c : agent_matches q c = false ↔ ¬ matches q c.
Proof. rewrite <-agent_matches_spec. by destruct (agent_matches q c). Qed.

(** The loop of [verify_agent] stops at the first match. *)
Lemma find_match_Some q cs c :
  find_match q cs = Some c ↔
  ∃ pre post, cs = pre ++ c :: post ∧ matches q c
              ∧ Forall (λ c', ¬ matches q c') pre.
Proof.
  induction cs as [|c0 cs IH]; simpl.
  - split; [done|]. intros ([|??] & ? & ? & _); done.
  - destruct (agent_matches q c0) eqn:Hc0.
    + apply agent_matches_spec in Hc0. split.
      * intros [= <-]. exists [], cs. auto.
      * intros ([|c1 pre] & post & Heq & Hm & Hpre); simplify_eq/=; [done|].
        by apply Forall_cons in Hpre as [? _].
    + apply agent_matches_false in Hc0. rewrite IH. split.
      * intros (pre & post & -> & Hm & Hpre). exists (c0 :: pre), post. auto.
      * intros ([|c1 pre] & post & Heq & Hm & Hpre); simplify_eq/=; [done|].
        apply Forall_cons in Hpre as [_ Hpre]. eauto.
Qed.

Lemma find_match_None q cs :
  find_match q cs = None ↔ Forall (λ c, ¬ matches q c) cs.
Proof.
  induction cs as [|c0 cs IH]; simpl.
  - split; [constructor|done].
  - destruct (agent_matches q c0) eqn:Hc0.
    + apply agent_matches_spec in Hc0. split; [done|].
      by intros [? _]%Forall_cons.
    + apply agent_matches_false in Hc0. rewrite IH, Forall_cons. tauto.
Qed.

End MatchEvaluatorSpec.

Section Normalisation.

Lemma normalize_string_whitespace f :
  whitespace_only f → normalize_string f = Some EmptyString.
Proof.
  intros (s & -> & Hne & Hs). destruct s as [|c s]; [done|].
  unfold normalize_string. by rewrite strip_lower_all_space.
Qed.

Lemma normalize_email_whitespace f :
  whitespace_only f → normalize_email f = Some EmptyString.
Proof.
  intros (s & -> & Hne & Hs). destruct s as [|c s]; [done|].
  unfold normalize_email. by rewrite strip_lower_all_space.
Qed.

Lemma normalize_phone_whitespace f :
  whitespace_only f → normalize_phone f = Some EmptyString.
Proof.
  intros (s & -> & Hne & Hs). destruct s as [|c s]; [done|].
  unfold normalize_phone. rewrite re_sub_class_all; [done|].
  revert Hs. apply all_chars_impl, isspace_phone_formatting.
Qed.

Lemma whitespace_only_truthy f : whitespace_only f → truthy f = true.
Proof. intros (s & -> & Hne & _). by destruct s. Qed.

(** A supplied field whose normal form is empty fails its test. *)
Lemma field_ok_empty normalize provided scraped :
  normalize provided = Some EmptyString →
  field_ok normalize provided scraped = false.
Proof. unfold field_ok. by intros ->. Qed.

Lemma normalize_phone_Some v :
  v ≠ EmptyString →
  normalize_phone (Some v) = Some (lower (re_sub_class phone_formatting v)).
Proof. by destruct v. Qed.

Lemma isspace_lower_char_eq c : isspace (lower_char c) = isspace c.
Proof. destruct c as [[] [] [] [] [] [] [] []]; by vm_compute. Qed.

Lemma all_space_lower s : all_chars isspace (lower s) = all_chars isspace s.
Proof.
  induction s as [|c s IH]; simpl; [done|].
  by rewrite isspace_lower_char_eq, IH.
Qed.

Lemma all_space_lstrip s : all_chars isspace (lstrip s) = all_chars isspace s.
Proof.
  induction s as [|c s IH]; simpl; [done|].
  destruct (isspace c) eqn:Hc; simpl; [done|]. by rewrite Hc.
Qed.

Lemma rstrip_nil s : rstrip s = EmptyString ↔ all_chars isspace s = true.
Proof.
  induction s as [|c s IH]; simpl; [done|].
  destruct (rstrip s) eqn:Hr.
  - destruct (isspace c); simpl; [tauto|]. split; discriminate.
  - split; [discriminate|]. intros [_ Hs]%andb_prop.
    apply IH in Hs. discriminate.
Qed.

Lemma strip_nil s : strip s = EmptyString ↔ all_chars isspace s = true.
Proof. unfold strip. by rewrite rstrip_nil, all_space_lstrip. Qed.

Lemma re_sub_class_nil cls s :
  re_sub_class cls s = EmptyString ↔ all_chars cls s = true.
Proof.
  induction s as [|c s IH]; simpl; [done|].
  destruct (cls c); simpl; [done|]. split; discriminate.
Qed.

Lemma lower_nil s : lower s = EmptyString ↔ s = EmptyString.
Proof. destruct s; simpl; split; congruence. Qed.

Lemma present_Some_iff s : present (Some s) ↔ s ≠ EmptyString.
Proof. unfold present. destruct s; simpl; split; congruence. Qed.

(** A text value (name, e-mail, licence) is present after normalisation
    exactly when it holds a character that is not whitespace. *)
Lemma normalize_string_present f :
  present (normalize_string f) ↔ ∃ s, f = Some s ∧ all_chars isspace s = false.
Proof.
  destruct f as [[|c s]|]; unfold normalize_string.
  - split; [done|]. by intros (s & [= <-] & Hs).
  - rewrite present_Some_iff, strip_nil, all_space_lower.
    rewrite not_true_iff_false. split; [eauto|]. by intros (? & [= <-] & ?).
  - split; [done|]. by intros (s & [=] & _).
Qed.

Lemma normalize_email_present f :
  present (normalize_email f) ↔ ∃ s, f = Some s ∧ all_chars isspace s = false.
Proof. apply normalize_string_present. Qed.

(** A phone value is present after normalisation exactly when it holds a
    character that is not a formatting character. *)
Lemma normalize_phone_present f :
  present (normalize_phone f) ↔
  ∃ s, f = Some s ∧ all_chars phone_formatting s = false.
Proof.
  destruct f as [[|c s]|]; unfold normalize_phone.
  - split; [done|]. by intros (s & [= <-] & Hs).
  - rewrite present_Some_iff, lower_nil.
    rewrite (re_sub_class_nil phone_formatting (String c s)).
    rewrite not_true_iff_false. split; [eauto|]. by intros (? & [= <-] & ?).
  - split; [done|]. by intros (s & [=] & _).
Qed.

End Normalisation.

(** ** Profile identifiers *)

Section ProfileIdentifier.

Lemma append_nil_l r : EmptyString +:+ r = r.
Proof. reflexivity. Qed.

Lemma append_cons a p r : String a p +:+ r = String a (p +:+ r).
Proof. reflexivity. Qed.

Lemma length_append s1 s2 :
  String.length (s1 +:+ s2) = String.length s1 + String.length s2.
Proof.
  induction s1 as [|a s1 IH]; [done|].
  rewrite append_cons. simpl. by rewrite IH.
Qed.

Lemma strip_prefix_Some p s r : strip_prefix p s = Some r ↔ s = p +:+ r.
Proof.
  revert s. induction p as [|a p IH]; intros s; simpl.
  - rewrite append_nil_l. split; congruence.
  - rewrite append_cons. destruct s as [|b s]; [split; discriminate|].
    destruct (Ascii.eqb_spec a b) as [->|Hab].
    + rewrite IH. split; congruence.
    + split; [discriminate|]. intros [= ]. congruence.
Qed.

Lemma take_while_nil p s :
  take_while p s = EmptyString ↔
  s = EmptyString ∨ ∃ c r, s = String c r ∧ p c = false.
Proof.
  destruct s as [|c s]; simpl; [naive_solver|].
  destruct (p c) eqn:Hc; split; try done.
  - intros [|(? & ? & [= <- <-] & ?)]; congruence.
  - intros _. right. eauto.
Qed.

(** The greedy group: it takes identifier characters only, and what follows
    it does not start with one. *)
Lemma take_while_split p s :
  ∃ rest, s = take_while p s +:+ rest
          ∧ all_chars p (take_while p s) = true
          ∧ ∀ c r, rest = String c r → p c = false.
Proof.
  induction s as [|c s (rest & Heq & Hall & Hrest)]; simpl.
  - exists EmptyString. repeat split. discriminate.
  - destruct (p c) eqn:Hc; simpl.
    + exists rest. rewrite Hc, append_cons, <-Heq. auto.
    + exists (String c s). repeat split. by intros ?? [= <- <-].
Qed.

Lemma append_profile_length pre rest :
  9 ≤ String.length (pre +:+ "/profile/" +:+ rest).
Proof. rewrite !length_append. simpl. lia. Qed.

Lemma match_profile_here_None s :
  match_profile_here s = None ↔
  ∀ c rest, s = "/profile/" +:+ String c rest → id_char c = false.
Proof.
  unfold match_profile_here.
  destruct (strip_prefix "/profile/" s) as [r|] eqn:Hr.
  - apply strip_prefix_Some in Hr as ->.
    destruct (take_while id_char r) eqn:Htw.
    + apply take_while_nil in Htw as [->|(c & r' & -> & Hc)].
      * split; [|done]. intros _ ?? Heq.
        apply (f_equal String.length) in Heq.
        rewrite !length_append in Heq. simpl in Heq. lia.
      * split; [|done]. intros _ ?? Heq.
        apply String.app_inj in Heq. congruence.
    + split; [done|]. intros H. destruct r as [|c r]; [done|].
      simpl in Htw. destruct (id_char c) eqn:Hc; [|done].
      by rewrite (H c r) in Hc.
  - split; [|done]. intros _ c rest ->.
    by rewrite (proj2 (strip_prefix_Some _ _ _) eq_refl) in Hr.
Qed.

(** [re.search] finds nothing exactly when no occurrence of [/profile/]
    is followed by an identifier character. *)
Lemma re_search_profile_None s :
  re_search_profile s = None ↔
  ∀ pre c rest, s = pre +:+ "/profile/" +:+ String c rest → id_char c = false.
Proof.
  induction s as [|a s IH].
  - split; [|done]. intros _ pre c rest Heq.
    pose proof (append_profile_length pre (String c rest)) as Hlen.
    rewrite <-Heq in Hlen. simpl in Hlen. lia.
  - cbn [re_search_profile].
    destruct (match_profile_here (String a s)) eqn:Hhere.
    + split; [done|]. intros H. exfalso.
      assert (match_profile_here (String a s) = None) as Hn; [|congruence].
      apply match_profile_here_None. intros c rest. apply (H EmptyString).
    + rewrite IH. split.
      * intros H [|b pre] c rest Heq.
        -- eapply match_profile_here_None; eauto.
        -- rewrite append_cons in Heq. injection Heq as -> Heq. eauto.
      * intros H pre c rest ->. apply (H (String a pre) c rest). done.
Qed.

Lemma or_empty_default u : or_empty u = default EmptyString u.
Proof. by destruct u as [[|??]|]. Qed.

Lemma re_search_profile_has_identifier u :
  re_search_profile (or_empty u) = None ↔ ¬ has_identifier u.
Proof.
  rewrite re_search_profile_None, or_empty_default. unfold has_identifier. split.
  - intros H (s & pre & c & rest & -> & Hs & Hc). simpl in H.
    by rewrite (H _ _ _ Hs) in Hc.
  - intros H pre c rest Heq. destruct (id_char c) eqn:Hc; [|done].
    destruct H. destruct u as [s|]; simpl in Heq.
    + exists s, pre, c, rest. done.
    + pose proof (append_profile_length pre (String c rest)) as Hlen.
      rewrite <-Heq in Hlen. simpl in Hlen. lia.
Qed.

(** What [re.search] finds is an identifier that stands in the URL behind
    [/profile/] and ends at the next [/] or [?] (or at the end). *)
Lemma re_search_profile_Some s id :
  re_search_profile s = Some id →
  ∃ pre rest, s = pre +:+ "/profile/" +:+ id +:+ rest
              ∧ id ≠ EmptyString ∧ all_chars id_char id = true
              ∧ ∀ c r, rest = String c r → id_char c = false.
Proof.
  induction s as [|a s IH]; cbn [re_search_profile].
  - by vm_compute.
  - destruct (match_profile_here (String a s)) as [id'|] eqn:Hhere.
    + intros [= ->]. unfold match_profile_here in Hhere.
      destruct (strip_prefix "/profile/" (String a s)) as [r|] eqn:Hr; [|done].
      apply strip_prefix_Some in Hr.
      destruct (take_while_split id_char r) as (rest & Heq & Hall & Hrest).
      destruct (take_while id_char r) eqn:Htw; [done|].
      injection Hhere as <-. exists EmptyString, rest.
      split; [|done]. rewrite Hr, append_nil_l. by rewrite Heq.
    + intros (pre & rest & -> & ?)%IH. exists (String a pre), rest. done.
Qed.

End ProfileIdentifier.

(** ** The enrichment unit and the batch *)

Section Enrichment.

Lemma get_detailed_info_no_identifier scrape agent :
  re_search_profile (or_empty (profile_url agent)) = None →
  get_detailed_info scrape agent = mkUnit agent [] [].
Proof. unfold get_detailed_info. by intros ->. Qed.

Lemma get_detailed_info_raised scrape agent profile_id e :
  re_search_profile (or_empty (profile_url agent)) = Some profile_id →
  scrape profile_id = Raised e →
  get_detailed_info scrape agent =
    mkUnit agent [scrape_agent_profile_call profile_id] [profile_url agent].
Proof. unfold get_detailed_info. by intros -> ->. Qed.

Lemma get_detailed_info_empty scrape agent profile_id :
  re_search_profile (or_empty (profile_url agent)) = Some profile_id →
  scrape profile_id = Returned None →
  get_detailed_info scrape agent =
    mkUnit agent [scrape_agent_profile_call profile_id] [].
Proof. unfold get_detailed_info. by intros -> ->. Qed.

Lemma get_detailed_info_merged scrape agent profile_id detailed_info :
  re_search_profile (or_empty (profile_url agent)) = Some profile_id →
  scrape profile_id = Returned (Some detailed_info) →
  get_detailed_info scrape agent =
    mkUnit (merge detailed_info agent)
           [scrape_agent_profile_call profile_id] [].
Proof. unfold get_detailed_info. by intros -> ->. Qed.

(** A unit appends to [failed_profiles] once when its fetch raises, and not
    at all otherwise. *)
Lemma appended_fetch_raises scrape agent :
  appended (get_detailed_info scrape agent) =
    if fetch_raises scrape agent then [profile_url agent] else [].
Proof.
  unfold get_detailed_info, fetch_raises, detail_fetch.
  destruct (re_search_profile _) as [id|]; simpl; [|done].
  by destruct (scrape id) as [e|[d|]].
Qed.

(** A unit returns the summary or a full merge, nothing in between. *)
Lemma output_summary_or_merge scrape agent :
  output (get_detailed_info scrape agent) = agent
  ∨ ∃ detailed_info,
      output (get_detailed_info scrape agent) = merge detailed_info agent.
Proof.
  unfold get_detailed_info.
  destruct (re_search_profile _) as [id|]; simpl; [|by left].
  destruct (scrape id) as [e|[d|]]; simpl; eauto.
Qed.

Lemma gather_length scrape agents :
  length (gather scrape agents) = length agents.
Proof. apply length_imap. Qed.

Lemma gather_lookup scrape agents i :
  gather scrape agents !! i = get_detailed_info (scrape i) <$> agents !! i.
Proof. unfold gather. by rewrite list_lookup_imap. Qed.

Lemma detailed_agents_length scrape agents :
  length (detailed_agents scrape agents) = length agents.
Proof. unfold detailed_agents. by rewrite length_fmap, gather_length. Qed.

Lemma detailed_agents_lookup scrape agents i :
  detailed_agents scrape agents !! i =
    (λ agent, output (get_detailed_info (scrape i) agent)) <$> agents !! i.
Proof.
  unfold detailed_agents. rewrite list_lookup_fmap, gather_lookup.
  by destruct (agents !! i).
Qed.

(** The failure total is the number of fetches that raised. *)
Lemma failed_profiles_length scrape agents :
  length (failed_profiles scrape agents) = raised_count scrape agents.
Proof.
  unfold failed_profiles, raised_count, gather.
  rewrite length_join, fmap_imap. f_equal.
  rewrite fmap_imap. apply imap_ext. intros i agent _. simpl.
  rewrite appended_fetch_raises. by destruct (fetch_raises _ _).
Qed.

End Enrichment.

(** ** Lists updated in place *)

Section ListUpdate.

Context {A : Type}.

Lemma filter_insert_length (P : A → Prop) `{!∀ x, Decision (P x)}
    (l : list A) i x y :
  l !! i = Some y →
  length (filter P (<[i:=x]> l)) + (if decide (P y) then 1 else 0)
  = length (filter P l) + (if decide (P x) then 1 else 0).
Proof.
  revert i. induction l as [|z l IH]; intros [|i] Hi; simplify_eq/=.
  - rewrite !filter_cons. repeat case_decide; simpl; lia.
  - rewrite !filter_cons. specialize (IH i Hi).
    destruct (decide (P z)); simpl; lia.
Qed.

Lemma sum_list_insert (f : A → nat) (l : list A) i x y :
  l !! i = Some y →
  sum_list (f <$> <[i:=x]> l) + f y = sum_list (f <$> l) + f x.
Proof.
  revert i. induction l as [|z l IH]; intros [|i] Hi; simplify_eq/=.
  - lia.
  - specialize (IH i Hi). lia.
Qed.

Lemma join_zip_with_insert {B C} (h : B → A → list C) (us : list B)
    (l : list A) i u x y :
  us !! i = Some u → l !! i = Some y → h u y = [] →
  mjoin (zip_with h us (<[i:=x]> l)) ≡ₚ mjoin (zip_with h us l) ++ h u x.
Proof.
  revert i l. induction us as [|u0 us IH]; intros [|i] [|z l] Hu Hl Hy;
    simplify_eq/=.
  - rewrite Hy. simpl. apply Permutation_app_comm.
  - rewrite (IH i l Hu Hl Hy). by rewrite (assoc (++)).
Qed.

End ListUpdate.

(** ** The event loop *)

Section Pool.

Context (scrape : profile_scraper) (agents : list AgentInfo).

Lemma filter_running_waiting n :
  filter (λ t, is_running t = true) (replicate n Waiting) = [].
Proof. induction n as [|n IH]; [done|]. simpl. by rewrite filter_cons_False. Qed.

Lemma settled_waiting (us : list unit_result) n :
  mjoin (zip_with settled us (replicate n Waiting)) = [].
Proof.
  revert n. induction us as [|u us IH]; intros [|n]; simpl; auto.
Qed.

Lemma pool_inv_init : pool_inv scrape agents (pool_init agents).
Proof.
  unfold pool_inv, pool_init, holders. simpl. split_and!.
  - apply length_replicate.
  - by rewrite filter_running_waiting.
  - intros i r [? _]%lookup_replicate. done.
  - by rewrite settled_waiting.
Qed.

Lemma pool_inv_step l s s' :
  pool_inv scrape agents s → pool_step scrape agents l s s' →
  pool_inv scrape agents s'.
Proof.
  intros (Hlen & Hsem & Hres & Hfail) Hstep.
  destruct Hstep as [i s Hi Hpos|i s agent Hi Hagent]; unfold pool_inv, holders in *;
    simpl.
  - assert (is_Some (gather scrape agents !! i)) as [u Hu].
    { apply lookup_lt_is_Some. rewrite gather_length, <-Hlen.
      by eapply lookup_lt_Some. }
    split_and!.
    + by rewrite length_insert.
    + pose proof (filter_insert_length (λ t, is_running t = true)
                    (tasks s) i Running Waiting Hi) as Hf.
      simpl in Hf. repeat case_decide; try done; lia.
    + intros j r Hj. destruct (decide (i = j)) as [<-|Hne].
      * rewrite list_lookup_insert_eq in Hj; [done|]. by eapply lookup_lt_Some.
      * rewrite list_lookup_insert_ne in Hj by done. auto.
    + rewrite (join_zip_with_insert settled _ _ i u Running Waiting) by done.
      simpl. by rewrite (right_id [] (++)).
  - assert (gather scrape agents !! i
            = Some (get_detailed_info (scrape i) agent)) as Hu.
    { by rewrite gather_lookup, Hagent. }
    split_and!.
    + by rewrite length_insert.
    + pose proof (filter_insert_length (λ t, is_running t = true) (tasks s) i
                    (Finished (output (get_detailed_info (scrape i) agent)))
                    Running Hi) as Hf.
      simpl in Hf. repeat case_decide; try done; lia.
    + intros j r Hj. destruct (decide (i = j)) as [<-|Hne].
      * rewrite list_lookup_insert_eq in Hj by (by eapply lookup_lt_Some).
        injection Hj as <-. by rewrite Hu.
      * rewrite list_lookup_insert_ne in Hj by done. auto.
    + rewrite (join_zip_with_insert settled _ _ i _ _ Running Hu Hi) by done.
      simpl. by rewrite Hfail.
Qed.

(** The invariant holds in every state the event loop reaches. *)
Lemma reachable_inv s : reachable scrape agents s → pool_inv scrape agents s.
Proof.
  unfold reachable. revert s. apply rtc_ind_r.
  - apply pool_inv_init.
  - intros s s' _ [l Hstep] IH. eauto using pool_inv_step.
Qed.

Lemma in_flight_le_holders s : in_flight agents s ≤ holders s.
Proof.
  unfold in_flight, holders. generalize (tasks s) as ts.
  induction agents as [|a l IH]; intros [|t ts]; simpl; try lia.
  rewrite !filter_cons. specialize (IH ts).
  repeat case_decide; simpl in *; try lia. tauto.
Qed.

Lemma settled_finished (us : list unit_result) (ts : list task) :
  length us = length ts → Forall (λ t, is_Some (task_result t)) ts →
  mjoin (zip_with settled us ts) = mjoin (appended <$> us).
Proof.
  revert ts. induction us as [|u us IH]; intros [|t ts] Hlen Hall;
    simplify_eq/=; [done|].
  apply Forall_cons in Hall as [[r Hr] Hall]. destruct t; simplify_eq/=.
  by rewrite IH.
Qed.

(** Once every task has returned, [asyncio.gather] hands back the units'
    results in input order, and [failed_profiles] holds what the units
    appended. *)
Lemma gathered_results s outs :
  pool_inv scrape agents s → gathered s = Some outs →
  outs = detailed_agents scrape agents
  ∧ failed s ≡ₚ failed_profiles scrape agents.
Proof.
  intros (Hlen & _ & Hres & Hfail) Hg. unfold gathered in Hg.
  apply mapM_Some in Hg. split.
  - apply list_eq. intros i. unfold detailed_agents.
    rewrite list_lookup_fmap.
    destruct (tasks s !! i) as [t|] eqn:Ht.
    + destruct (Forall2_lookup_l _ _ _ _ _ Hg Ht) as (r & Hr & Htr).
      destruct t; simplify_eq/=. rewrite Hr. symmetry. by apply Hres.
    + apply lookup_ge_None in Ht.
      rewrite (proj2 (lookup_ge_None outs i))
        by (by rewrite <-(Forall2_length _ _ _ Hg)).
      rewrite (proj2 (lookup_ge_None (gather scrape agents) i)); [done|].
      rewrite gather_length. lia.
  - rewrite Hfail. unfold failed_profiles. rewrite settled_finished; [done|..].
    + rewrite gather_length. done.
    + apply Forall_forall. intros t Ht.
      apply list_elem_of_lookup in Ht as [i Ht].
      destruct (Forall2_lookup_l _ _ _ _ _ Hg Ht) as (r & _ & ->). eauto.
Qed.

Lemma holders_running s :
  0 < holders s → ∃ i, tasks s !! i = Some Running.
Proof.
  unfold holders. destruct (filter _ (tasks s)) as [|t ts] eqn:Hf; simpl; [lia|].
  intros _. assert (t ∈ filter (λ t, is_running t = true) (tasks s)) as Ht.
  { rewrite Hf. left. }
  apply list_elem_of_filter in Ht as [Hrun Ht]. destruct t; simplify_eq/=.
  by apply list_elem_of_lookup.
Qed.

(** No deadlock: while a task has not returned, the event loop can step. *)
Lemma pool_progress s :
  pool_inv scrape agents s → gathered s = None →
  ∃ l s', pool_step scrape agents l s s'.
Proof.
  intros (Hlen & Hsem & _ & _) Hg.
  assert (∀ i, tasks s !! i = Some Running →
               ∃ l s', pool_step scrape agents l s s') as Hrelease.
  { intros i Hi. assert (is_Some (agents !! i)) as [agent Hagent].
    { apply lookup_lt_is_Some. rewrite <-Hlen. by eapply lookup_lt_Some. }
    eexists (Release i), _. by eapply step_release. }
  apply mapM_None, Exists_exists in Hg as (t & Ht & Hnone).
  apply list_elem_of_lookup in Ht as [i Hi].
  destruct t as [| |r]; [|by eauto|done].
  destruct (decide (0 < semaphore s)) as [Hpos|Hzero].
  - eexists (Acquire i), _. by eapply step_acquire.
  - destruct (holders_running s) as [j Hj]; [|by eauto].
    unfold semaphore_permits in Hsem. lia.
Qed.

(** Every step uses up one of the steps that remain. *)
Lemma pool_step_remaining l s s' :
  pool_step scrape agents l s s' →
  remaining_steps s' + 1 = remaining_steps s.
Proof.
  unfold remaining_steps.
  intros [i ? Hi Hpos|i ? agent Hi Hagent]; simpl.
  - pose proof (sum_list_insert weight _ i Running _ Hi) as H.
    simpl in H. lia.
  - pose proof (sum_list_insert weight _ i
                  (Finished (output (get_detailed_info (scrape i) agent)))
                  _ Hi) as H.
    simpl in H. lia.
Qed.



Lemma pool_completes_from n s :
  remaining_steps s ≤ n → pool_inv scrape agents s →
  ∃ s', rtc (pool_next scrape agents) s s' ∧ is_Some (gathered s').
Proof.
  revert s. induction n as [|n IH]; intros s Hn Hinv;
    (destruct (gathered s) as [outs|] eqn:Hg; [exists s; by eauto|]);
    destruct (pool_progress s Hinv Hg) as (l & s' & Hstep);
    pose proof (pool_step_remaining _ _ _ Hstep) as Hrem; [lia|].
  destruct (IH s') as (s'' & Hrtc & Hdone); [lia|by eapply pool_inv_step|].
  exists s''. split; [|done]. eapply rtc_l; [by exists l|done].
Qed.

(** The gather returns: from every state the event loop reaches, it can
    run on to a state in which every task has returned. *)
Lemma pool_completes s :
  reachable scrape agents s →
  ∃ s', rtc (pool_next scrape agents) s s' ∧ is_Some (gathered s').
Proof. intros Hs. eapply pool_completes_from; [done|]. by apply reachable_inv. Qed.

(** With no permit left, the only steps are releases. *)
Lemma pool_step_blocked l s s' :
  semaphore s = 0 → pool_step scrape agents l s s' → ∃ i, l = Release i.
Proof. intros Hzero Hstep. destruct Hstep; [lia|eauto]. Qed.

End Pool.

(** ** The two detail loops *)

Section Transports.

Lemma or_empty_Some s : or_empty (Some s) = s.
Proof. by destruct s. Qed.

(** One link through both loops: the MCP loop drops it exactly when the
    direct loop makes no fetch for it, and otherwise returns the direct
    loop's record up to empty values in the detail-only fields. *)
Lemma mcp_unit_direct_unit scrape agent_data :
  match ScraperMcp.get_detailed_info scrape agent_data with
  | None =>
      get_detailed_info scrape (ScraperMcp.summary agent_data)
      = mkUnit (ScraperMcp.summary agent_data) [] []
  | Some r =>
      has_fetched (get_detailed_info scrape (ScraperMcp.summary agent_data))
      ∧ output (get_detailed_info scrape (ScraperMcp.summary agent_data))
        = null_if_empty r
  end.
Proof.
  unfold ScraperMcp.get_detailed_info, get_detailed_info, has_fetched.
  cbn [ScraperMcp.summary ScraperMcp.basic_info profile_url].
  rewrite or_empty_Some.
  destruct (re_search_profile (ScraperMcp.url agent_data)) as [id|]; [|done].
  destruct (scrape id) as [e|[d|]]; simpl; split; done.
Qed.

Lemma omap_imap_filter {A B C D} (f : nat → A → option B) (g : nat → A → C)
    (P : C → Prop) `{!∀ c, Decision (P c)} (h : B → D) (k : C → D)
    (l : list A) :
  (∀ i x, match f i x with
          | None => ¬ P (g i x)
          | Some r => P (g i x) ∧ k (g i x) = h r
          end) →
  h <$> omap id (imap f l) = k <$> filter P (imap g l).
Proof.
  revert f g. induction l as [|x l IH]; intros f g Hfg; [done|].
  rewrite !imap_cons. cbn [omap list_omap]. rewrite filter_cons.
  specialize (IH (f ∘ S) (g ∘ S) (λ i, Hfg (S i))).
  pose proof (Hfg 0 x) as H0. unfold id at 1.
  destruct (f 0 x) as [r|].
  - destruct H0 as [HP Hg]. simpl. rewrite decide_True by done.
    simpl. rewrite Hg. f_equal. apply IH.
  - by rewrite decide_False.
Qed.

Lemma filter_all {A} (P : A → Prop) `{!∀ x, Decision (P x)} (l : list A) :
  Forall P l → filter P l = l.
Proof.
  induction 1 as [|x l Hx _ IH]; [done|].
  by rewrite filter_cons_True, IH.
Qed.

End Transports.

(** * The specification's statements *)

(** ** Match evaluator and verification endpoint *)

(** C6: [find_match] returns the first candidate, in input order, for
    which every non-empty query field, after normalisation, equals the
    candidate's field after normalisation, that value being present.  A
    candidate lacking a supplied field is no match, a candidate agreeing on
    some supplied fields only is no match, and a query without a non-empty
    field matches no candidate. *)
Theorem find_match_first_full_match
    (q : AgentVerificationRequest) (cs : list AgentInfo) :
  (∀ c, find_match q cs = Some c ↔
        ∃ pre post, cs = pre ++ c :: post ∧ matches q c
                    ∧ Forall (λ c', ¬ matches q c') pre)
  ∧ (find_match q cs = None ↔ Forall (λ c, ¬ matches q c) cs)
  ∧ (∀ c, agent_matches q c = true ↔ matches q c)
  ∧ (∀ c, lacks_supplied_field q c → agent_matches q c = false)
  ∧ (∀ c, ¬ field_agrees normalize_string (req_name q) (name c)
          ∨ ¬ field_agrees normalize_email (req_email q) (email c)
          ∨ ¬ field_agrees normalize_phone (req_phone q) (phone c)
          ∨ ¬ field_agrees normalize_string (req_license q) (license c) →
          agent_matches q c = false)
  ∧ (¬ supplied q → find_match q cs = None).
Proof.
  split_and!.
  - intros c. apply find_match_Some.
  - apply find_match_None.
  - intros c. apply agent_matches_spec.
  - intros c Hmissing. apply agent_matches_false.
    intros (_ & Hn & He & Hp & Hl).
    destruct Hmissing as [[Hq Hc]|[[Hq Hc]|[[Hq Hc]|[Hq Hc]]]].
    + destruct (Hn Hq) as [Hpresent _]. by rewrite Hc in Hpresent.
    + destruct (He Hq) as [Hpresent _]. by rewrite Hc in Hpresent.
    + destruct (Hp Hq) as [Hpresent _]. by rewrite Hc in Hpresent.
    + destruct (Hl Hq) as [Hpresent _]. by rewrite Hc in Hpresent.
  - intros c Hdisagree. apply agent_matches_false. unfold matches. tauto.
  - intros Hnone. apply find_match_None, Forall_forall.
    intros c _ [Hs _]. done.
Qed.

(** C7: [normalize_phone] leaves no whitespace, hyphen, parenthesis or plus
    sign (so no leading plus sign either), lower-cases what it keeps, and
    therefore the query phone [(555) 123-4567] matches a candidate whose
    phone is [555-123-4567] or [+5551234567], in any candidate list. *)
Theorem normalize_phone_strips_formatting :
  (∀ v, v ≠ EmptyString →
        ∃ n, normalize_phone (Some v) = Some n
             ∧ n = lower (re_sub_class phone_formatting v)
             ∧ (∀ c, In c (list_ascii_of_string n) →
                     isspace c = false ∧ c ≠ "-"%char ∧ c ≠ "("%char
                     ∧ c ≠ ")"%char ∧ c ≠ "+"%char)
             ∧ (∀ rest, n ≠ String "+" rest))
  ∧ (∀ c, example_phone c → agent_matches example_phone_query c = true)
  ∧ (∀ cs c, c ∈ cs → example_phone c →
             ∃ c', find_match example_phone_query cs = Some c'
                   ∧ normalize_phone (phone c') = Some "5551234567").
Proof.
  assert (∀ c, example_phone c → agent_matches example_phone_query c = true)
    as Hexample.
  { intros c Hc. rewrite agent_matches_unfold.
    destruct Hc as [Hc|Hc]; simpl; rewrite Hc; by vm_compute. }
  split_and!; [|done|].
  - intros v Hv. eexists. split; [by apply normalize_phone_Some|].
    assert (∀ c, In c (list_ascii_of_string
                         (lower (re_sub_class phone_formatting v))) →
                 phone_formatting c = false) as Hclean.
    { intros c Hc. apply negb_true_iff. revert c Hc. apply all_chars_In.
      apply lower_clean, re_sub_class_clean. }
    split_and!; [done| |].
    + intros c Hc. specialize (Hclean c Hc). unfold phone_formatting in Hclean.
      rewrite !orb_false_iff in Hclean.
      destruct Hclean as ((((Hs & H1) & H2) & H3) & H4).
      split_and!; [done|..]; intros ->; done.
    + intros rest Heq. specialize (Hclean "+"%char).
      rewrite Heq in Hclean. simpl in Hclean. by specialize (Hclean (or_introl eq_refl)).
  - intros cs c Hin Hc.
    destruct (find_match example_phone_query cs) as [c'|] eqn:Hfind.
    + exists c'. split; [done|].
      apply find_match_Some in Hfind as (_ & _ & _ & Hm & _).
      destruct Hm as (_ & _ & _ & Hp & _).
      destruct (Hp eq_refl) as [_ Hq]. by rewrite <-Hq.
    + apply find_match_None in Hfind.
      rewrite Forall_forall in Hfind. destruct (Hfind c Hin).
      by apply agent_matches_spec, Hexample.
Qed.

(** C8: a request in which the four fields are absent is answered with
    status 400, and no scraper has been called. *)
Theorem verify_agent_rejects_empty_request
    (scrape_local_agents_page : string → outcome (list AgentInfo))
    (agent_details : AgentVerificationRequest) (base_url : string) :
  req_name agent_details = None → req_email agent_details = None →
  req_phone agent_details = None → req_license agent_details = None →
  ∃ detail,
    verify_agent scrape_local_agents_page agent_details base_url
    = (HTTPException 400 detail, []).
Proof.
  intros Hn He Hp Hl. unfold verify_agent. rewrite Hn, He, Hp, Hl. simpl.
  eauto.
Qed.

Lemma verify_agent_rejects_empty_request_witness :
  ∃ detail,
    verify_agent (λ _, Returned [blank_agent]) (mkRequest None None None None)
      "https://dreproxy.onrender.com"
    = (HTTPException 400 detail, []).
Proof.
  exact (verify_agent_rejects_empty_request (λ _, Returned [blank_agent])
           (mkRequest None None None None) "https://dreproxy.onrender.com"
           eq_refl eq_refl eq_refl eq_refl).
Defined.

(** C10: a query with a field that is not empty but holds whitespace only
    matches no candidate: the field counts as supplied, so the request is
    not rejected as empty, but its normal form is empty and the comparison
    fails. *)
Theorem whitespace_only_field_never_matches
    (provided : AgentVerificationRequest) (scraped : AgentInfo) :
  whitespace_only (req_name provided) ∨ whitespace_only (req_email provided)
  ∨ whitespace_only (req_phone provided)
  ∨ whitespace_only (req_license provided) →
  agent_matches provided scraped = false
  ∧ any (query_fields provided) = true
  ∧ (∀ scrape base_url status detail,
       (verify_agent scrape provided base_url).1 = HTTPException status detail →
       status ≠ 400)
  ∧ (∀ scrape base_url scraped_agents,
       scrape base_url = Returned scraped_agents →
       ∃ r, (verify_agent scrape provided base_url).1 = Response r
            ∧ is_match r = false ∧ matched_agent r = None).
Proof.
  intros Hws.
  assert (∀ c, agent_matches provided c = false) as Hnever.
  { intros c. rewrite agent_matches_unfold.
    destruct Hws as [Hw|[Hw|[Hw|Hw]]]; rewrite (whitespace_only_truthy _ Hw).
    - rewrite (field_ok_empty normalize_string (req_name provided))
        by (by apply normalize_string_whitespace).
      simpl. by rewrite !andb_false_r.
    - rewrite (field_ok_empty normalize_email (req_email provided))
        by (by apply normalize_email_whitespace).
      simpl. by rewrite !andb_false_r.
    - rewrite (field_ok_empty normalize_phone (req_phone provided))
        by (by apply normalize_phone_whitespace).
      simpl. by rewrite !andb_false_r.
    - rewrite (field_ok_empty normalize_string (req_license provided))
        by (by apply normalize_string_whitespace).
      simpl. by rewrite !andb_false_r. }
  assert (any (query_fields provided) = true) as Hany.
  { apply any_supplied. unfold supplied, query_fields.
    destruct Hws as [Hw|[Hw|[Hw|Hw]]]; eexists; split;
      try (by apply whitespace_only_truthy); set_solver. }
  assert (∀ cs, find_match provided cs = None) as Hfind.
  { intros cs. induction cs as [|c cs IH]; simpl; [done|]. by rewrite Hnever. }
  split_and!; [done|done|..].
  - intros scrape base_url status detail. unfold verify_agent.
    fold (query_fields provided). rewrite Hany. simpl.
    destruct (scrape base_url); simpl; [|by rewrite Hfind].
    intros [= <- _]. done.
  - intros scrape base_url scraped_agents Hscrape. unfold verify_agent.
    fold (query_fields provided). rewrite Hany, Hscrape, Hfind. simpl. eauto.
Qed.

Lemma whitespace_only_field_never_matches_witness :
  whitespace_only (req_name (mkRequest (Some "   ") None None None))
  ∧ agent_matches (mkRequest (Some "   ") None None None) blank_agent = false.
Proof.
  assert (whitespace_only (req_name (mkRequest (Some "   ") None None None)))
    as Hws.
  { exists "   ". split_and!; [reflexivity|discriminate|reflexivity]. }
  split; [exact Hws|].
  exact (proj1 (whitespace_only_field_never_matches
                  (mkRequest (Some "   ") None None None) blank_agent
                  (or_introl Hws))).
Defined.

(** ** Enrichment pipeline *)

(** C1: a batch of N summaries gives N records, whatever the detail
    fetches do: in the list the units' results make up, in the response of
    the endpoint, and in every state of the event loop in which the gather
    has returned; and the gather does return. *)
Theorem enrichment_preserves_cardinality
    (scrape_agents : string → outcome (list AgentInfo))
    (scrape_agent_profile : profile_scraper)
    (search_label : string) (batch : list AgentInfo) :
  scrape_agents search_label = Returned batch →
  length (detailed_agents scrape_agent_profile batch) = length batch
  ∧ (∃ r, get_all_agents_full scrape_agents scrape_agent_profile search_label
          = Response r
          ∧ length (agents r) = length batch
          ∧ total_agents r = length batch)
  ∧ (∀ s outs, reachable scrape_agent_profile batch s →
               gathered s = Some outs → length outs = length batch)
  ∧ (∃ s outs, reachable scrape_agent_profile batch s
               ∧ gathered s = Some outs).
Proof.
  intros Hscrape. split_and!.
  - apply detailed_agents_length.
  - unfold get_all_agents_full. rewrite Hscrape.
    destruct batch as [|a batch]; [by eexists|].
    eexists. split; [done|]. cbn [agents total_agents].
    by rewrite detailed_agents_length.
  - intros s outs Hs Hg.
    destruct (gathered_results _ _ s outs (reachable_inv _ _ s Hs) Hg) as [-> _].
    apply detailed_agents_length.
  - destruct (pool_completes scrape_agent_profile batch (pool_init batch))
      as (s & Hs & [outs Hg]); [apply rtc_refl|].
    by exists s, outs.
Qed.

(** C3: when the detail fetch of a summary returns a record, the record
    put out for it has, in every field, the detail value when that is
    present (neither null nor empty) and the summary value otherwise;
    [profile_url] is the summary's. *)
Theorem merge_prefers_detail
    (scrape_agent_profile : profile_scraper) (batch : list AgentInfo)
    (i : nat) (agent detailed_info : AgentInfo) (profile_id : string) :
  batch !! i = Some agent →
  re_search_profile (or_empty (profile_url agent)) = Some profile_id →
  scrape_agent_profile i profile_id = Returned (Some detailed_info) →
  ∃ merged,
    detailed_agents scrape_agent_profile batch !! i = Some merged
    ∧ name merged
      = (if truthy (name detailed_info) then name detailed_info else name agent)
    ∧ location merged
      = (if truthy (location detailed_info) then location detailed_info
         else location agent)
    ∧ profile_url merged = profile_url agent
    ∧ phone merged
      = (if truthy (phone detailed_info) then phone detailed_info
         else phone agent)
    ∧ email merged
      = (if truthy (email detailed_info) then email detailed_info
         else email agent)
    ∧ bio merged
      = (if truthy (bio detailed_info) then bio detailed_info else bio agent)
    ∧ specialties merged
      = (if truthy_list (specialties detailed_info)
         then specialties detailed_info else specialties agent)
    ∧ languages merged
      = (if truthy_list (languages detailed_info)
         then languages detailed_info else languages agent)
    ∧ years_experience merged
      = (if truthy (years_experience detailed_info)
         then years_experience detailed_info else years_experience agent)
    ∧ image_url merged
      = (if truthy (image_url detailed_info) then image_url detailed_info
         else image_url agent)
    ∧ office merged
      = (if truthy (office detailed_info) then office detailed_info
         else office agent)
    ∧ license merged
      = (if truthy (license detailed_info) then license detailed_info
         else license agent)
    ∧ website merged
      = (if truthy (website detailed_info) then website detailed_info
         else website agent)
    ∧ facebook merged
      = (if truthy (facebook detailed_info) then facebook detailed_info
         else facebook agent)
    ∧ instagram merged
      = (if truthy (instagram detailed_info) then instagram detailed_info
         else instagram agent).
Proof.
  intros Hi Hid Hfetch. exists (merge detailed_info agent). split.
  - rewrite detailed_agents_lookup, Hi. simpl.
    by rewrite (get_detailed_info_merged _ _ _ _ Hid Hfetch).
  - by split_and!.
Qed.

(** C4: a summary whose [profile_url] yields no identifier is passed
    through as it is; no call of [scrape_agent_profile] is made for it and
    nothing is appended to [failed_profiles]. *)
Theorem no_identifier_skips_fetch
    (scrape_agent_profile : profile_scraper) (batch : list AgentInfo)
    (i : nat) (agent : AgentInfo) :
  batch !! i = Some agent →
  ¬ has_identifier (profile_url agent) →
  gather scrape_agent_profile batch !! i = Some (mkUnit agent [] [])
  ∧ detailed_agents scrape_agent_profile batch !! i = Some agent
  ∧ fetch_raises (scrape_agent_profile i) agent = false.
Proof.
  intros Hi Hnone. apply re_search_profile_has_identifier in Hnone.
  split_and!.
  - rewrite gather_lookup, Hi. simpl.
    by rewrite (get_detailed_info_no_identifier _ _ Hnone).
  - rewrite detailed_agents_lookup, Hi. simpl.
    by rewrite (get_detailed_info_no_identifier _ _ Hnone).
  - unfold fetch_raises, detail_fetch. by rewrite Hnone.
Qed.

(** C2, as worded, fails on a fetch that returns nothing: the summary is
    put out unchanged, but nothing is appended to [failed_profiles], so the
    counter does not go up by one and the reported total (0) is not the
    number of fetches that did not complete successfully (1). *)
Lemma empty_fetch_is_not_counted :
  fetch_empty (scrape_nothing 0) jane = true
  ∧ output (get_detailed_info (scrape_nothing 0) jane) = jane
  ∧ length (appended (get_detailed_info (scrape_nothing 0) jane)) ≠ 1
  ∧ length (failed_profiles scrape_nothing [jane])
    ≠ unsuccessful_count scrape_nothing [jane].
Proof. by vm_compute. Qed.

(** C2 (amended): a detail fetch that raises or returns nothing does not
    abort the batch, and the record put out for that summary is the summary
    itself.  A fetch that raises appends exactly one entry to
    [failed_profiles]; a fetch that returns nothing appends none.  The
    failure total, also the one in the message of the response and the one
    the event loop ends with, is the number of summaries whose fetch
    raised. *)
Theorem fetch_failure_falls_back_to_summary
    (scrape_agent_profile : profile_scraper) (batch : list AgentInfo) :
  (∀ i agent, batch !! i = Some agent →
      fetch_raises (scrape_agent_profile i) agent = true →
      ∃ u, gather scrape_agent_profile batch !! i = Some u
           ∧ output u = agent ∧ appended u = [profile_url agent])
  ∧ (∀ i agent, batch !! i = Some agent →
      fetch_empty (scrape_agent_profile i) agent = true →
      ∃ u, gather scrape_agent_profile batch !! i = Some u
           ∧ output u = agent ∧ appended u = [])
  ∧ length (detailed_agents scrape_agent_profile batch) = length batch
  ∧ length (failed_profiles scrape_agent_profile batch)
    = raised_count scrape_agent_profile batch
  ∧ (∀ scrape_agents search_label,
      scrape_agents search_label = Returned batch → batch ≠ [] →
      ∃ r, get_all_agents_full scrape_agents scrape_agent_profile search_label
           = Response r
           ∧ message r
             = Some (full_details_message (length batch)
                       (raised_count scrape_agent_profile batch)))
  ∧ (∀ s outs, reachable scrape_agent_profile batch s →
      gathered s = Some outs →
      outs = detailed_agents scrape_agent_profile batch
      ∧ length (failed s) = raised_count scrape_agent_profile batch).
Proof.
  split_and!.
  - intros i agent Hi Hraise. eexists. rewrite gather_lookup, Hi. simpl.
    split; [done|]. rewrite appended_fetch_raises, Hraise. split; [|done].
    unfold fetch_raises, detail_fetch in Hraise. unfold get_detailed_info.
    destruct (re_search_profile _) as [id|]; simpl in *; [|done].
    by destruct (scrape_agent_profile i id) as [e|[d|]].
  - intros i agent Hi Hempty. eexists. rewrite gather_lookup, Hi. simpl.
    split; [done|].
    unfold fetch_empty, detail_fetch in Hempty. unfold get_detailed_info.
    destruct (re_search_profile _) as [id|]; simpl in *; [|done].
    by destruct (scrape_agent_profile i id) as [e|[d|]].
  - apply detailed_agents_length.
  - apply failed_profiles_length.
  - intros scrape_agents search_label Hscrape Hne.
    unfold get_all_agents_full. rewrite Hscrape.
    destruct batch as [|a batch]; [done|].
    eexists. split; [done|]. cbn [message].
    by rewrite detailed_agents_length, failed_profiles_length.
  - intros s outs Hs Hg.
    destruct (gathered_results _ _ s outs (reachable_inv _ _ s Hs) Hg)
      as [-> Hperm].
    split; [done|]. by rewrite Hperm, failed_profiles_length.
Qed.

Lemma in_flight_waiting (l : list AgentInfo) n :
  filter (λ p : AgentInfo * task, is_running p.2 = true ∧ fetches p.1 = true)
    (zip l (replicate n Waiting)) = [].
Proof.
  revert n. induction l as [|a l IH]; intros [|n]; simpl; try done.
  rewrite filter_cons_False; [apply IH|]. simpl. by intros [? _].
Qed.

(** The cap is reached: with three summaries to fetch for at the head of
    the batch, the event loop gets to a state with three fetches in
    flight. *)
Lemma three_in_flight_reachable (scrape : profile_scraper) a1 a2 a3 rest :
  fetches a1 = true → fetches a2 = true → fetches a3 = true →
  ∃ s, reachable scrape (a1 :: a2 :: a3 :: rest) s
       ∧ in_flight (a1 :: a2 :: a3 :: rest) s = 3
       ∧ semaphore s = 0.
Proof.
  intros H1 H2 H3.
  exists (mkPool 0 (Running :: Running :: Running
                      :: replicate (length rest) Waiting) []).
  split_and!; [|unfold in_flight; simpl|done].
  - unfold reachable, pool_init, semaphore_permits.
    eapply rtc_l; [exists (Acquire 0); apply step_acquire; simpl;
                     [reflexivity|lia]|]; simpl.
    eapply rtc_l; [exists (Acquire 1); apply step_acquire; simpl;
                     [reflexivity|lia]|]; simpl.
    eapply rtc_l; [exists (Acquire 2); apply step_acquire; simpl;
                     [reflexivity|lia]|]; simpl.
    apply rtc_refl.
  - rewrite !filter_cons_True by done. by rewrite in_flight_waiting.
Qed.

(** C5: in every state the event loop reaches, at most three detail
    fetches are in flight.  The semaphore starts at 3 for every batch, the
    permits taken are those of the running tasks, and with three fetches in
    flight no waiting task can start: the only steps are releases.  Three
    in flight does occur. *)
Theorem at_most_three_in_flight
    (scrape_agent_profile : profile_scraper) (batch : list AgentInfo)
    (s : pool) :
  reachable scrape_agent_profile batch s →
  in_flight batch s ≤ 3
  ∧ semaphore s + holders s = 3
  ∧ semaphore (pool_init batch) = 3
  ∧ (in_flight batch s = 3 →
     ∀ l s', pool_step scrape_agent_profile batch l s s' → ∃ i, l = Release i)
  ∧ (∀ a1 a2 a3 rest, batch = a1 :: a2 :: a3 :: rest →
     fetches a1 = true → fetches a2 = true → fetches a3 = true →
     ∃ s3, reachable scrape_agent_profile batch s3 ∧ in_flight batch s3 = 3).
Proof.
  intros Hs. destruct (reachable_inv _ _ s Hs) as (_ & Hsem & _ & _).
  unfold semaphore_permits in Hsem.
  pose proof (in_flight_le_holders batch s) as Hle.
  split_and!; [lia|done|done|..].
  - intros Hfull l s' Hstep.
    eapply pool_step_blocked; [|done]. lia.
  - intros a1 a2 a3 rest -> H1 H2 H3.
    destruct (three_in_flight_reachable scrape_agent_profile a1 a2 a3 rest)
      as (s3 & ? & ? & _); eauto.
Qed.

(** ** The two transports *)

(** C9, as worded, fails.  For a link without an identifier the direct
    loop keeps the summary and the MCP loop drops it, so the counts differ;
    and for a detail record with an empty [bio] the direct loop puts out a
    null [bio] where the MCP loop puts out the empty one. *)
Lemma mcp_differs_from_direct :
  length (ScraperMcp.detailed_agents scrape_nothing [bare_link])
  ≠ length (detailed_agents scrape_nothing [ScraperMcp.summary bare_link])
  ∧ bio <$> ScraperMcp.detailed_agents scrape_jane [jane_link]
    ≠ bio <$> detailed_agents scrape_jane [ScraperMcp.summary jane_link].
Proof. by vm_compute. Qed.

Lemma has_identifier_fetched scrape agent :
  has_identifier (profile_url agent) →
  has_fetched (get_detailed_info scrape agent).
Proof.
  intros Hid. unfold has_fetched, get_detailed_info.
  destruct (re_search_profile _) as [id|] eqn:Hsearch.
  - by destruct (scrape id) as [e|[d|]].
  - by apply re_search_profile_has_identifier in Hsearch.
Qed.

Lemma py_or_None_id (o : option string) :
  o ≠ Some EmptyString → py_or truthy o None = o.
Proof. by destruct o as [[|??]|]. Qed.

Lemma py_or_list_None_id (o : option (list string)) :
  o ≠ Some [] → py_or truthy_list o None = o.
Proof. by destruct o as [[|??]|]. Qed.

(** C9 (amended): on the same links and the same fetch results, the MCP
    loop returns, in order, the records the direct loop returns for the
    links whose URL yields an identifier, and drops the other links; so the
    two return equally many records when every URL yields an identifier.
    Record by record the two agree on [name], [profile_url] and
    [image_url], and on every other field up to an empty detail value,
    which the MCP loop keeps and the direct loop turns into null. *)
Theorem mcp_returns_direct_records_with_identifier
    (scrape_agent_profile : profile_scraper)
    (agent_links_data : list ScraperMcp.agent_data) :
  null_if_empty <$> ScraperMcp.detailed_agents scrape_agent_profile agent_links_data
  = output <$> filter has_fetched
                 (gather scrape_agent_profile
                    (ScraperMcp.summary <$> agent_links_data))
  ∧ (Forall (λ d, has_identifier (Some (ScraperMcp.url d))) agent_links_data →
     null_if_empty
       <$> ScraperMcp.detailed_agents scrape_agent_profile agent_links_data
     = detailed_agents scrape_agent_profile
         (ScraperMcp.summary <$> agent_links_data)
     ∧ length (ScraperMcp.detailed_agents scrape_agent_profile agent_links_data)
       = length (detailed_agents scrape_agent_profile
                   (ScraperMcp.summary <$> agent_links_data)))
  ∧ (∀ r, name (null_if_empty r) = name r
          ∧ profile_url (null_if_empty r) = profile_url r
          ∧ image_url (null_if_empty r) = image_url r)
  ∧ (∀ r, no_empty_value r → null_if_empty r = r).
Proof.
  assert (null_if_empty
            <$> ScraperMcp.detailed_agents scrape_agent_profile agent_links_data
          = output <$> filter has_fetched
                         (gather scrape_agent_profile
                            (ScraperMcp.summary <$> agent_links_data))) as Hmain.
  { unfold ScraperMcp.detailed_agents, gather. rewrite imap_fmap.
    apply omap_imap_filter. intros i d. simpl.
    pose proof (mcp_unit_direct_unit (scrape_agent_profile i) d) as Hunit.
    destruct (ScraperMcp.get_detailed_info (scrape_agent_profile i) d) as [r|].
    - done.
    - rewrite Hunit. unfold has_fetched. simpl. by intros []. }
  split_and!; [done| |done|].
  - intros Hall.
    assert (null_if_empty
              <$> ScraperMcp.detailed_agents scrape_agent_profile agent_links_data
            = detailed_agents scrape_agent_profile
                (ScraperMcp.summary <$> agent_links_data)) as Heq.
    { rewrite Hmain. unfold detailed_agents. f_equal. apply filter_all.
      apply Forall_lookup. intros i u. rewrite gather_lookup, list_lookup_fmap.
      destruct (agent_links_data !! i) as [d|] eqn:Hd; [|done].
      simpl. intros [= <-]. apply has_identifier_fetched.
      by apply (Forall_lookup_1 _ _ _ _ Hall Hd). }
    split; [done|]. by rewrite <-Heq, length_fmap.
  - intros [??????????????? ] (?&?&?&?&?&?&?&?&?&?&?&?). simpl in *.
    unfold null_if_empty. simpl.
    by rewrite !py_or_None_id, !py_or_list_None_id.
Qed.

(** ** Instances *)

Lemma enrichment_preserves_cardinality_witness :
  (λ _ : string, Returned [jane; sam]) "austin" = Returned [jane; sam]
  ∧ length (detailed_agents scrape_timeout [jane; sam]) = length [jane; sam].
Proof.
  split; [reflexivity|].
  exact (proj1 (enrichment_preserves_cardinality
                  (λ _, Returned [jane; sam]) scrape_timeout "austin"
                  [jane; sam] eq_refl)).
Defined.

Lemma merge_prefers_detail_witness :
  ([sam; jane] !! 1 = Some jane
   ∧ re_search_profile (or_empty (profile_url jane)) = Some "jane"
   ∧ scrape_jane 1 "jane" = Returned (Some jane_detail))
  ∧ ∃ merged,
      detailed_agents scrape_jane [sam; jane] !! 1 = Some merged
      ∧ name merged = Some "Jane A. Doe"
      ∧ profile_url merged = profile_url jane.
Proof.
  split; [split_and!; reflexivity|].
  destruct (merge_prefers_detail scrape_jane [sam; jane] 1 jane jane_detail
              "jane" eq_refl eq_refl eq_refl)
    as (merged & Hlookup & Hname & _ & Hurl & _).
  exists merged. split_and!; [exact Hlookup|exact Hname|exact Hurl].
Defined.

Lemma no_identifier_skips_fetch_witness :
  [jane; sam] !! 1 = Some sam
  ∧ gather scrape_timeout [jane; sam] !! 1 = Some (mkUnit sam [] []).
Proof.
  split; [reflexivity|].
  refine (proj1 (no_identifier_skips_fetch scrape_timeout [jane; sam] 1 sam
                   eq_refl _)).
  apply re_search_profile_has_identifier. vm_compute. reflexivity.
Defined.

Lemma at_most_three_in_flight_witness :
  reachable scrape_jane [jane; jane; jane; jane]
    (mkPool 0 [Running; Running; Running; Waiting] [])
  ∧ in_flight [jane; jane; jane; jane]
      (mkPool 0 [Running; Running; Running; Waiting] []) ≤ 3.
Proof.
  assert (reachable scrape_jane [jane; jane; jane; jane]
            (mkPool 0 [Running; Running; Running; Waiting] [])) as Hreach.
  { unfold reachable, pool_init, semaphore_permits.
    eapply rtc_l; [exists (Acquire 0); apply step_acquire; simpl;
                     [reflexivity|lia]|]; simpl.
    eapply rtc_l; [exists (Acquire 1); apply step_acquire; simpl;
                     [reflexivity|lia]|]; simpl.
    eapply rtc_l; [exists (Acquire 2); apply step_acquire; simpl;
                     [reflexivity|lia]|]; simpl.
    apply rtc_refl. }
  split; [exact Hreach|].
  exact (proj1 (at_most_three_in_flight scrape_jane [jane; jane; jane; jane]
                  _ Hreach)).
Defined.

(** The scenario of the specification: five summaries, two without an
    identifier, one whose fetch raises.  Five records come out, one failure
    is counted, three records are the summaries and two are merges. *)
Example scenario_five_summaries :
  let batch := [jane; sam; jane; sam; jane] in
  length (detailed_agents scrape_third_raises batch) = 5
  ∧ length (failed_profiles scrape_third_raises batch) = 1
  ∧ detailed_agents scrape_third_raises batch
    = [merge jane_detail jane; sam; jane; sam; merge jane_detail jane]
  ∧ profile_calls scrape_third_raises batch
    = [scrape_agent_profile_call "jane"; scrape_agent_profile_call "jane";
       scrape_agent_profile_call "jane"].
Proof. by vm_compute. Qed.

Example agent_matches_conjunctive :
  agent_matches (mkRequest (Some "Jane Doe") (Some "JANE@X.COM") None None)
    (mkAgentInfo (Some "jane doe") None None None (Some "jane@x.com") None
       None None None None None None None None None) = true
  ∧ agent_matches (mkRequest (Some "Jane Doe") (Some "JANE@X.COM") None None)
    (mkAgentInfo (Some "jane doe") None None None (Some "other@x.com") None
       None None None None None None None None None) = false.
Proof. by vm_compute. Qed.

Example re_search_profile_examples :
  re_search_profile "https://onereal.com/profile/aniraula?x=1" = Some "aniraula"
  ∧ re_search_profile "https://onereal.com/profile//profile/abc/def" = Some "abc"
  ∧ re_search_profile "https://onereal.com/profile/" = None.
Proof. by vm_compute. Qed.

(** * Further properties of the code *)

(** ** The verification endpoints *)

Section Verification.

Lemma any_false_iff (l : list (option string)) :
  any l = false ↔ ∀ f, f ∈ l → f = None ∨ f = Some EmptyString.
Proof.
  unfold any. induction l as [|f l IH]; simpl.
  - split; [intros _ f Hf; inversion Hf|done].
  - rewrite orb_false_iff, IH. split.
    + intros [Hf Hl] g [->|Hg]%elem_of_cons; [|by auto].
      destruct f as [[|??]|]; auto; done.
    + intros H. split.
      * destruct (H f) as [->| ->]; [left|done|done].
      * intros g Hg. apply H. by right.
Qed.

(** X1: [verify_agent] answers 400 exactly when each of the four fields
    is null or empty; it answers 500 exactly when a field is supplied and
    the page scraper raises; the scraper is called exactly when the
    request is not answered with 400, and then once. *)
Theorem verify_agent_status
    (scrape_local_agents_page : string → outcome (list AgentInfo))
    (agent_details : AgentVerificationRequest) (base_url : string) :
  ((∃ detail, (verify_agent scrape_local_agents_page agent_details base_url).1
              = HTTPException 400 detail)
   ↔ ∀ f, f ∈ query_fields agent_details → f = None ∨ f = Some EmptyString)
  ∧ ((∃ detail, (verify_agent scrape_local_agents_page agent_details base_url).1
                = HTTPException 500 detail)
     ↔ supplied agent_details
       ∧ ∃ e, scrape_local_agents_page base_url = Raised e)
  ∧ ((verify_agent scrape_local_agents_page agent_details base_url).2
     = if any (query_fields agent_details)
       then [scrape_local_agents_page_call base_url] else []).
Proof.
  rewrite <-any_false_iff, <-any_supplied. unfold verify_agent.
  fold (query_fields agent_details).
  destruct (any (query_fields agent_details)); simpl.
  - destruct (scrape_local_agents_page base_url) as [e|scraped_agents]; simpl.
    + split_and!; [split; [by intros [? [=]]|done]| |done].
      split; [eauto|]. intros _. eauto.
    + split_and!; [split; [|done]| |done].
      * intros [detail Hd]. by destruct (find_match _ _).
      * split; [|by intros [_ [? [=]]]].
        intros [detail Hd]. by destruct (find_match _ _).
  - split_and!; [split; eauto| |done].
    split; [by intros [? [=]]|by intros [[=] _]].
Qed.

(** X2: for a request that supplies a field, when the page scraper
    returns a list, [verify_agent] answers with [match] true exactly when
    some scraped agent matches; the matched agent is the first one of the
    list that matches, and the request is echoed. *)
Theorem verify_agent_answer
    (scrape_local_agents_page : string → outcome (list AgentInfo))
    (agent_details : AgentVerificationRequest) (base_url : string)
    (scraped_agents : list AgentInfo) :
  supplied agent_details →
  scrape_local_agents_page base_url = Returned scraped_agents →
  ∃ r, (verify_agent scrape_local_agents_page agent_details base_url).1
       = Response r
       ∧ matched_agent r = find_match agent_details scraped_agents
       ∧ (is_match r = true ↔
          ∃ c, c ∈ scraped_agents ∧ agent_matches agent_details c = true)
       ∧ (∀ c, matched_agent r = Some c →
               c ∈ scraped_agents ∧ agent_matches agent_details c = true)
       ∧ (is_match r = true ↔ is_Some (matched_agent r))
       ∧ provided_details r = agent_details.
Proof.
  intros Hs%any_supplied Hscrape. unfold verify_agent.
  fold (query_fields agent_details). rewrite Hs, Hscrape. simpl.
  destruct (find_match agent_details scraped_agents) as [c|] eqn:Hfind.
  - apply find_match_Some in Hfind as (pre & post & -> & Hm & _).
    apply agent_matches_spec in Hm.
    assert (c ∈ pre ++ c :: post) as Hin.
    { apply elem_of_app. right. left. }
    eexists. split; [done|]. simpl. split_and!; try done.
    all: try (split; by eauto).
    intros ? [= <-]. done.
  - eexists. split; [done|]. simpl. split_and!; try done.
    split; [done|]. intros (c & Hc & Hm). exfalso.
      apply find_match_None in Hfind. rewrite Forall_forall in Hfind.
      by apply (Hfind c Hc), agent_matches_spec.
Qed.

Lemma verify_agent_answer_witness :
  ∃ r, (verify_agent (λ _, Returned [blank_agent; jane_detail])
          (mkRequest None (Some "Jane@X.com ") None None)
          "https://dreproxy.onrender.com").1 = Response r
       ∧ matched_agent r = Some jane_detail.
Proof.
  destruct (verify_agent_answer (λ _, Returned [blank_agent; jane_detail])
              (mkRequest None (Some "Jane@X.com ") None None)
              "https://dreproxy.onrender.com" [blank_agent; jane_detail])
    as (r & Hr & Hm & _).
  - exists (Some "Jane@X.com "). split; [|reflexivity].
    unfold query_fields. simpl. right. left.
  - reflexivity.
  - exists r. split; [exact Hr|]. rewrite Hm. reflexivity.
Defined.

(** X3: [verify_agent_mcp] decides like [verify_agent]: on the same
    scraper outcome the two answer with the same status, the same [match],
    the same matched agent and the same echoed request, after the same
    scraper calls; only the texts differ. *)
Theorem verify_agent_mcp_same_decision
    (scrape : string → outcome (list AgentInfo))
    (agent_details : AgentVerificationRequest) (base_url : string) :
  match (verify_agent scrape agent_details base_url).1,
        (verify_agent_mcp scrape agent_details base_url).1 with
  | Response r, Response r' =>
      is_match r = is_match r' ∧ matched_agent r = matched_agent r'
      ∧ provided_details r = provided_details r'
  | HTTPException status _, HTTPException status' _ => status = status'
  | _, _ => False
  end
  ∧ (verify_agent scrape agent_details base_url).2
    = (verify_agent_mcp scrape agent_details base_url).2.
Proof.
  unfold verify_agent, verify_agent_mcp.
  destruct (negb (any _)); simpl; [done|].
  destruct (scrape base_url) as [e|scraped_agents]; simpl; [done|].
  by destruct (find_match agent_details scraped_agents).
Qed.

End Verification.

(** ** Normal forms and matching *)

Section NormalForms.

Lemma lower_char_idem c : lower_char (lower_char c) = lower_char c.
Proof. destruct c as [[] [] [] [] [] [] [] []]; by vm_compute. Qed.

Lemma lower_idem s : lower (lower s) = lower s.
Proof.
  induction s as [|c s IH]; simpl; [done|]. by rewrite lower_char_idem, IH.
Qed.

Lemma lower_lstrip s : lower (lstrip s) = lstrip (lower s).
Proof.
  induction s as [|c s IH]; simpl; [done|].
  rewrite isspace_lower_char_eq. by destruct (isspace c).
Qed.

Lemma lower_rstrip s : lower (rstrip s) = rstrip (lower s).
Proof.
  induction s as [|c s IH]; simpl; [done|].
  rewrite <-IH, isspace_lower_char_eq.
  destruct (rstrip s); simpl; [by destruct (isspace c)|done].
Qed.

Lemma lower_strip s : lower (strip s) = strip (lower s).
Proof. unfold strip. by rewrite lower_rstrip, lower_lstrip. Qed.

Lemma lstrip_starts s : starts_with isspace (lstrip s) = false.
Proof.
  induction s as [|c s IH]; simpl; [done|].
  destruct (isspace c) eqn:Hc; simpl; done.
Qed.

Lemma lstrip_fixed s : starts_with isspace s = false → lstrip s = s.
Proof. destruct s as [|c s]; simpl; [done|]. by intros ->. Qed.

Lemma rstrip_starts s :
  starts_with isspace s = false → starts_with isspace (rstrip s) = false.
Proof.
  destruct s as [|c s]; simpl; [done|]. intros Hc.
  destruct (rstrip s); simpl; [by rewrite Hc|done].
Qed.

Lemma rstrip_idem s : rstrip (rstrip s) = rstrip s.
Proof.
  induction s as [|c s IH]; simpl; [done|].
  destruct (rstrip s) as [|c' r] eqn:Hr.
  - destruct (isspace c) eqn:Hc; simpl; [done|]. by rewrite Hc.
  - cbn [rstrip] in *. rewrite IH. done.
Qed.

Lemma strip_idem s : strip (strip s) = strip s.
Proof.
  unfold strip. rewrite (lstrip_fixed (rstrip (lstrip s))).
  - apply rstrip_idem.
  - apply rstrip_starts, lstrip_starts.
Qed.

Lemma re_sub_class_fixed cls s :
  all_chars (λ c, negb (cls c)) s = true → re_sub_class cls s = s.
Proof.
  induction s as [|c s IH]; simpl; [done|].
  intros [Hc Hs]%andb_prop. apply negb_true_iff in Hc. by rewrite Hc, IH.
Qed.

Lemma re_sub_class_app cls s1 s2 :
  re_sub_class cls (s1 +:+ s2) = re_sub_class cls s1 +:+ re_sub_class cls s2.
Proof.
  induction s1 as [|c s1 IH]; [done|].
  rewrite append_cons. simpl. destruct (cls c); [done|].
  by rewrite append_cons, IH.
Qed.

Lemma append_nil_iff s1 s2 :
  s1 +:+ s2 = EmptyString ↔ s1 = EmptyString ∧ s2 = EmptyString.
Proof.
  destruct s1 as [|c s1].
  - rewrite append_nil_l. tauto.
  - rewrite append_cons. split; [discriminate|]. by intros [[=] _].
Qed.

(** X4: normalising a normal form again gives it back when it is
    present, and null when it is empty (a value of whitespace only, or a
    phone of formatting characters only); so a normal form that is present
    is stable.  This holds for the three normalisers. *)
Theorem normalize_twice (f : option string) :
  normalize_string (normalize_string f)
  = (if truthy (normalize_string f) then normalize_string f else None)
  ∧ normalize_email (normalize_email f)
    = (if truthy (normalize_email f) then normalize_email f else None)
  ∧ normalize_phone (normalize_phone f)
    = (if truthy (normalize_phone f) then normalize_phone f else None).
Proof.
  assert (∀ v, normalize_string (Some (strip (lower v)))
               = if truthy (Some (strip (lower v)))
                 then Some (strip (lower v)) else None) as Htext.
  { intros v. destruct (strip (lower v)) eqn:Hv; [done|].
    cbn [normalize_string truthy]. rewrite <-Hv.
    by rewrite lower_strip, lower_idem, strip_idem. }
  split_and!.
  - destruct f as [[|c v]|]; [done| |done]. apply Htext.
  - destruct f as [[|c v]|]; [done| |done]. apply Htext.
  - destruct f as [[|c v]|]; [done| |done].
    cbn [normalize_phone].
    destruct (lower (re_sub_class phone_formatting (String c v))) eqn:Hv;
      [done|].
    cbn [truthy]. rewrite <-Hv.
    rewrite (re_sub_class_fixed phone_formatting
               (lower (re_sub_class phone_formatting (String c v)))).
    + by rewrite lower_idem.
    + apply lower_clean, re_sub_class_clean.
Qed.

(** X5: a whitespace character, hyphen, parenthesis or plus sign put
    anywhere into a phone number, at its head, inside or at its end, does
    not change the normal form of the number. *)
Theorem normalize_phone_ignores_formatting (a b : string) (c : ascii) :
  phone_formatting c = true →
  a +:+ b ≠ EmptyString →
  normalize_phone (Some (a +:+ String c b)) = normalize_phone (Some (a +:+ b)).
Proof.
  intros Hc Hne. rewrite !normalize_phone_Some; [|done|].
  - rewrite !re_sub_class_app. simpl. by rewrite Hc.
  - rewrite append_nil_iff. by intros [_ [=]].
Qed.

Lemma normalize_phone_ignores_formatting_witness :
  normalize_phone (Some ("555" +:+ String "+" "1234"))
  = normalize_phone (Some ("555" +:+ "1234")).
Proof.
  apply (normalize_phone_ignores_formatting "555" "1234" "+");
    [reflexivity|discriminate].
Defined.

Lemma field_agrees_self normalize f :
  field_agrees normalize f f ↔ comparable normalize f.
Proof.
  unfold field_agrees, comparable, present. split.
  - intros H Ht. by apply H.
  - intros H Ht. split; [by apply H|done].
Qed.

(** X6: the request made of the identity fields of a scraped agent
    matches that agent exactly when the agent has one of the fields and
    every field it has is present after normalisation; then
    [find_match] finds an agent in every list that holds this one. *)
Theorem own_details_match (c : AgentInfo) (cs : list AgentInfo) :
  (agent_matches (request_of c) c = true ↔
   supplied (request_of c)
   ∧ comparable normalize_string (name c)
   ∧ comparable normalize_email (email c)
   ∧ comparable normalize_phone (phone c)
   ∧ comparable normalize_string (license c))
  ∧ (agent_matches (request_of c) c = true → c ∈ cs →
     ∃ c', find_match (request_of c) cs = Some c'
           ∧ agent_matches (request_of c) c' = true).
Proof.
  split.
  - rewrite agent_matches_spec. unfold matches. simpl.
    by rewrite !field_agrees_self.
  - intros Hm Hin.
    destruct (find_match (request_of c) cs) as [c'|] eqn:Hfind.
    + exists c'. split; [done|].
      apply find_match_Some in Hfind as (_ & _ & _ & Hm' & _).
      by apply agent_matches_spec.
    + apply find_match_None in Hfind. rewrite Forall_forall in Hfind.
      destruct (Hfind c Hin). by apply agent_matches_spec.
Qed.

(** X7: a request that matches an agent still matches it after some of
    its fields are taken out, as long as one field is left. *)
Theorem fewer_fields_still_match (q q' : AgentVerificationRequest)
    (c : AgentInfo) :
  agent_matches q c = true →
  supplied q' →
  (truthy (req_name q') = true → req_name q' = req_name q) →
  (truthy (req_email q') = true → req_email q' = req_email q) →
  (truthy (req_phone q') = true → req_phone q' = req_phone q) →
  (truthy (req_license q') = true → req_license q' = req_license q) →
  agent_matches q' c = true.
Proof.
  rewrite !agent_matches_spec. unfold matches, field_agrees, present.
  intros (_ & Hn & He & Hp & Hl) Hs Hn' He' Hp' Hl'.
  split_and!; [done|..]; intros Ht.
  - pose proof (Hn' Ht) as E. rewrite E in Ht |- *. auto.
  - pose proof (He' Ht) as E. rewrite E in Ht |- *. auto.
  - pose proof (Hp' Ht) as E. rewrite E in Ht |- *. auto.
  - pose proof (Hl' Ht) as E. rewrite E in Ht |- *. auto.
Qed.

Lemma fewer_fields_still_match_witness :
  agent_matches (mkRequest None (Some "JANE@X.COM") None None) jane_detail
  = true.
Proof.
  apply (fewer_fields_still_match
           (mkRequest (Some "jane a. doe") (Some "JANE@X.COM") None None)
           (mkRequest None (Some "JANE@X.COM") None None) jane_detail).
  - reflexivity.
  - exists (Some "JANE@X.COM"). split; [|reflexivity].
    unfold query_fields. simpl. right. left.
  - discriminate.
  - reflexivity.
  - discriminate.
  - discriminate.
Defined.

End NormalForms.

(** ** The enrichment pipeline, further *)

Section EnrichmentFurther.

Lemma py_or_idem {A} (t : A → bool) (d a : A) :
  py_or t d (py_or t d a) = py_or t d a.
Proof. unfold py_or. by destruct (t d). Qed.

Lemma py_or_truthy {A} (t : A → bool) (d a : A) :
  t a = true → t (py_or t d a) = true.
Proof. unfold py_or. by destruct (t d) eqn:Hd. Qed.

Lemma merge_idem d a : merge d (merge d a) = merge d a.
Proof. unfold merge. simpl. by rewrite !py_or_idem. Qed.

Lemma output_profile_url scrape agent :
  profile_url (output (get_detailed_info scrape agent)) = profile_url agent.
Proof.
  by destruct (output_summary_or_merge scrape agent) as [->|[d ->]].
Qed.

Lemma output_idem scrape agent :
  output (get_detailed_info scrape (output (get_detailed_info scrape agent)))
  = output (get_detailed_info scrape agent).
Proof.
  unfold get_detailed_info at 2 3.
  destruct (re_search_profile (or_empty (profile_url agent))) as [id|] eqn:Hid.
  - destruct (scrape id) as [e|[d|]] eqn:Hfetch; simpl.
    + by rewrite (get_detailed_info_raised _ _ _ _ Hid Hfetch).
    + rewrite (get_detailed_info_merged scrape (merge d agent) id d);
        [apply merge_idem|done|done].
    + by rewrite (get_detailed_info_empty _ _ _ Hid Hfetch).
  - simpl. by rewrite (get_detailed_info_no_identifier _ _ Hid).
Qed.

(** X8: enriching the output of an enrichment again, with fetches that
    end as before, changes nothing. *)
Theorem enrichment_idempotent
    (scrape_agent_profile : profile_scraper) (batch : list AgentInfo) :
  detailed_agents scrape_agent_profile
    (detailed_agents scrape_agent_profile batch)
  = detailed_agents scrape_agent_profile batch.
Proof.
  apply list_eq. intros i. rewrite !detailed_agents_lookup.
  destruct (batch !! i) as [agent|]; simpl; [|done].
  by rewrite output_idem.
Qed.

(** X9: the batch keeps its profile URLs: record by record, in input
    order, the [profile_url] put out is the one that came in, whatever the
    fetches do. *)
Theorem enrichment_keeps_profile_urls
    (scrape_agent_profile : profile_scraper) (batch : list AgentInfo) :
  profile_url <$> detailed_agents scrape_agent_profile batch
  = profile_url <$> batch.
Proof.
  apply list_eq. intros i.
  rewrite !list_lookup_fmap, detailed_agents_lookup.
  destruct (batch !! i) as [agent|]; simpl; [|done].
  by rewrite output_profile_url.
Qed.

(** X10: enrichment never blanks a field: a field that is present in the
    summary is present in the record put out for it. *)
Theorem enrichment_keeps_present_fields
    (scrape_agent_profile : profile_scraper) (batch : list AgentInfo)
    (i : nat) (agent out : AgentInfo) :
  batch !! i = Some agent →
  detailed_agents scrape_agent_profile batch !! i = Some out →
  (truthy (name agent) = true → truthy (name out) = true)
  ∧ (truthy (location agent) = true → truthy (location out) = true)
  ∧ (truthy (profile_url agent) = true → truthy (profile_url out) = true)
  ∧ (truthy (phone agent) = true → truthy (phone out) = true)
  ∧ (truthy (email agent) = true → truthy (email out) = true)
  ∧ (truthy (bio agent) = true → truthy (bio out) = true)
  ∧ (truthy_list (specialties agent) = true →
     truthy_list (specialties out) = true)
  ∧ (truthy_list (languages agent) = true →
     truthy_list (languages out) = true)
  ∧ (truthy (years_experience agent) = true →
     truthy (years_experience out) = true)
  ∧ (truthy (image_url agent) = true → truthy (image_url out) = true)
  ∧ (truthy (office agent) = true → truthy (office out) = true)
  ∧ (truthy (license agent) = true → truthy (license out) = true)
  ∧ (truthy (website agent) = true → truthy (website out) = true)
  ∧ (truthy (facebook agent) = true → truthy (facebook out) = true)
  ∧ (truthy (instagram agent) = true → truthy (instagram out) = true).
Proof.
  intros Hi. rewrite detailed_agents_lookup, Hi. simpl. intros [= <-].
  destruct (output_summary_or_merge (scrape_agent_profile i) agent)
    as [->|[d ->]]; [by split_and!|].
  unfold merge. simpl. split_and!; try done; apply py_or_truthy.
Qed.

Lemma enrichment_keeps_present_fields_witness :
  ([sam; jane] !! 1 = Some jane
   ∧ detailed_agents scrape_jane [sam; jane] !! 1
     = Some (merge jane_detail jane))
  ∧ truthy (name (merge jane_detail jane)) = true.
Proof.
  split; [split; reflexivity|].
  exact (proj1 (enrichment_keeps_present_fields scrape_jane [sam; jane] 1
                  jane (merge jane_detail jane) eq_refl eq_refl) eq_refl).
Defined.

Lemma gather_cons scrape agent batch :
  gather scrape (agent :: batch)
  = get_detailed_info (scrape 0) agent :: gather (λ i, scrape (S i)) batch.
Proof. unfold gather. by rewrite imap_cons. Qed.

Lemma fetched_length scrape agent :
  length (fetched (get_detailed_info scrape agent))
  = if fetches agent then 1 else 0.
Proof.
  unfold get_detailed_info, fetches.
  destruct (re_search_profile _) as [id|]; simpl; [|done].
  by destruct (scrape id) as [|[|]].
Qed.

Lemma fetched_call scrape agent c :
  c ∈ fetched (get_detailed_info scrape agent) →
  ∃ id, c = scrape_agent_profile_call id
        ∧ re_search_profile (or_empty (profile_url agent)) = Some id.
Proof.
  unfold get_detailed_info.
  destruct (re_search_profile _) as [id|]; simpl.
  - destruct (scrape id) as [|[|]]; simpl;
      intros ->%list_elem_of_singleton; eauto.
  - intros H. inversion H.
Qed.

(** X11: the batch calls [scrape_agent_profile] once for every summary
    with an identifier and never for another, so at most once per summary;
    it calls no other scraper; and the identifier it passes is never empty
    and holds no slash and no question mark. *)
Theorem profile_calls_bounded
    (scrape_agent_profile : profile_scraper) (batch : list AgentInfo) :
  length (profile_calls scrape_agent_profile batch) = identified_count batch
  ∧ length (profile_calls scrape_agent_profile batch) ≤ length batch
  ∧ (∀ c, c ∈ profile_calls scrape_agent_profile batch →
          ∃ id, c = scrape_agent_profile_call id
                ∧ id ≠ EmptyString ∧ all_chars id_char id = true).
Proof.
  assert (length (profile_calls scrape_agent_profile batch)
          = identified_count batch) as Hlen.
  { unfold profile_calls, identified_count. revert scrape_agent_profile.
    induction batch as [|agent batch IH]; intros scrape; [done|].
    rewrite gather_cons, fmap_cons. cbn [mjoin list_join].
    rewrite length_app, fetched_length, IH, filter_cons.
    destruct (fetches agent); by case_decide. }
  split_and!; [done| |].
  - rewrite Hlen. apply length_filter.
  - intros c Hc. unfold profile_calls in Hc.
    apply list_elem_of_join in Hc as (l & Hc & Hl).
    apply list_elem_of_fmap in Hl as (u & -> & Hu).
    apply list_elem_of_lookup in Hu as [i Hu].
    rewrite gather_lookup in Hu.
    destruct (batch !! i) as [agent|]; simplify_eq/=.
    apply fetched_call in Hc as (id & -> & Hid).
    apply re_search_profile_Some in Hid as (_ & _ & _ & Hne & Hall & _).
    eauto.
Qed.

Lemma take_while_all p s : all_chars p s = true → take_while p s = s.
Proof.
  induction s as [|c s IH]; simpl; [done|].
  intros [Hc Hs]%andb_prop. by rewrite Hc, IH.
Qed.

(** X12: the address [scrape_agent_profile] builds for an identifier
    yields that identifier again: for an identifier that is not empty and
    holds no slash and no question mark, as every identifier the pipeline
    derives is, the search in [https://onereal.com/profile/<id>] finds
    [<id>]. *)
Theorem profile_page_round_trip (profile_id : string) :
  profile_id ≠ EmptyString →
  all_chars id_char profile_id = true →
  re_search_profile (profile_page profile_id) = Some profile_id.
Proof.
  intros Hne Hall. unfold profile_page. rewrite !append_cons, append_nil_l.
  do 19 (cbn [re_search_profile]; rewrite (proj2 (match_profile_here_None _));
         [|by intros ?? [=]]).
  cbn [re_search_profile]. unfold match_profile_here.
  rewrite (proj2 (strip_prefix_Some "/profile/" _ profile_id)) by done.
  rewrite take_while_all by done. by destruct profile_id.
Qed.

Lemma profile_page_round_trip_witness :
  re_search_profile (profile_page "aniraula") = Some "aniraula".
Proof.
  apply (profile_page_round_trip "aniraula"); [discriminate|reflexivity].
Defined.

Lemma no_detail_output scrape agent :
  (∀ d, detail_fetch scrape agent ≠ Some (Returned (Some d))) →
  output (get_detailed_info scrape agent) = agent.
Proof.
  unfold detail_fetch, get_detailed_info.
  destruct (re_search_profile _) as [id|]; simpl; [|done].
  destruct (scrape id) as [e|[d|]]; simpl; try done.
  intros H. by destruct (H d).
Qed.

(** X13: when no detail fetch returns a record (no identifier, an
    exception, or nothing returned), [/scrape-agents-full] answers with
    the agents [/scrape-agents] answers with: the summaries as the listing
    gave them, in order, and the same total. *)
Theorem full_endpoint_degrades_to_basic
    (scrape_agents : string → outcome (list AgentInfo))
    (scrape_agent_profile : profile_scraper)
    (search_label : string) (batch : list AgentInfo) :
  scrape_agents search_label = Returned batch →
  no_detail scrape_agent_profile batch →
  ∃ r r',
    get_all_agents_full scrape_agents scrape_agent_profile search_label
    = Response r
    ∧ get_all_agents scrape_agents search_label = Response r'
    ∧ agents r = batch ∧ agents r' = batch
    ∧ total_agents r = total_agents r'.
Proof.
  intros Hscrape Hnone.
  assert (detailed_agents scrape_agent_profile batch = batch) as Hsame.
  { apply list_eq. intros i. rewrite detailed_agents_lookup.
    destruct (batch !! i) as [agent|] eqn:Hi; simpl; [|done].
    rewrite no_detail_output; [done|]. intros d. by apply Hnone. }
  unfold get_all_agents_full, get_all_agents. rewrite Hscrape.
  destruct batch as [|agent batch]; [by eexists _, _|].
  eexists _, _. split; [done|]. split; [done|]. cbn [agents total_agents].
  by rewrite Hsame.
Qed.

Lemma full_endpoint_degrades_to_basic_witness :
  ∃ r r',
    get_all_agents_full (λ _, Returned [jane; sam]) scrape_timeout "austin"
    = Response r
    ∧ get_all_agents (λ _, Returned [jane; sam]) "austin" = Response r'
    ∧ agents r = agents r'.
Proof.
  destruct (full_endpoint_degrades_to_basic (λ _, Returned [jane; sam])
              scrape_timeout "austin" [jane; sam] eq_refl)
    as (r & r' & Hr & Hr' & Ha & Ha' & _).
  - intros i agent d _. unfold detail_fetch, scrape_timeout.
    by destruct (re_search_profile _).
  - exists r, r'. split; [exact Hr|]. split; [exact Hr'|].
    rewrite Ha, Ha'. reflexivity.
Defined.

End EnrichmentFurther.

(** ** The event loop, further *)

Section PoolFurther.

Context (scrape : profile_scraper) (batch : list AgentInfo).




End PoolFurther.



(** ** The MCP detail loop, further *)

Section McpFurther.

Lemma mcp_unit_identified scrape d :
  is_Some (ScraperMcp.get_detailed_info scrape d) ↔ link_identified d = true.
Proof.
  unfold ScraperMcp.get_detailed_info, link_identified.
  destruct (re_search_profile (ScraperMcp.url d)) as [id|]; simpl.
  - split; [done|]. intros _. destruct (scrape id) as [|[|]]; eauto.
  - split; [by intros [? [=]]|done].
Qed.

Lemma mcp_detailed_agents_cons scrape d links :
  ScraperMcp.detailed_agents scrape (d :: links)
  = match ScraperMcp.get_detailed_info (scrape 0) d with
    | Some r => r :: ScraperMcp.detailed_agents (λ i, scrape (S i)) links
    | None => ScraperMcp.detailed_agents (λ i, scrape (S i)) links
    end.
Proof.
  unfold ScraperMcp.detailed_agents. rewrite imap_cons. simpl.
  by destruct (ScraperMcp.get_detailed_info (scrape 0) d).
Qed.

Lemma mcp_detailed_agents_length scrape links :
  length (ScraperMcp.detailed_agents scrape links)
  = length (filter (λ d, link_identified d = true) links).
Proof.
  revert scrape. induction links as [|d links IH]; intros scrape; [done|].
  rewrite mcp_detailed_agents_cons, filter_cons.
  pose proof (mcp_unit_identified (scrape 0) d) as Hd.
  destruct (ScraperMcp.get_detailed_info (scrape 0) d) as [r|].
  - rewrite decide_True by (apply Hd; eauto). simpl. by rewrite IH.
  - rewrite decide_False; [apply IH|].
    intros Hid. apply Hd in Hid as [? [=]].
Qed.

(** X16: the MCP endpoint counts the links that have an identifier, not
    the links found: [total_agents] of [/scrape-agents-full-mcp] is the
    number of links from whose URL an identifier can be derived, whatever
    the detail fetches do; the links without one are left out, and a fetch
    that fails leaves none out. *)
Theorem mcp_endpoint_counts_identified_links
    (scrape_agent_profile : profile_scraper)
    (agent_links_data : list ScraperMcp.agent_data) (search_label : string) :
  ∃ r,
    get_all_agents_full_mcp
      (λ _, scrape_agents_full_mcp_tail (Returned agent_links_data)
              scrape_agent_profile) search_label
    = Response r
    ∧ agents r = ScraperMcp.detailed_agents scrape_agent_profile agent_links_data
    ∧ total_agents r
      = length (filter (λ d, link_identified d = true) agent_links_data)
    ∧ total_agents r ≤ length agent_links_data.
Proof.
  unfold get_all_agents_full_mcp, scrape_agents_full_mcp_tail.
  eexists. split; [done|]. cbn [agents total_agents].
  rewrite mcp_detailed_agents_length. split_and!; [done|done|].
  apply length_filter.
Qed.

(** X17: a record the MCP loop returns for a link carries the link's URL
    as [profile_url], and a name or an image address that the link has is
    not lost. *)
Theorem mcp_unit_keeps_link
    (scrape : string → outcome (option AgentInfo))
    (agent_data : ScraperMcp.agent_data) (r : AgentInfo) :
  ScraperMcp.get_detailed_info scrape agent_data = Some r →
  profile_url r = Some (ScraperMcp.url agent_data)
  ∧ (truthy (ScraperMcp.data_name agent_data) = true → truthy (name r) = true)
  ∧ (truthy (ScraperMcp.imageUrl agent_data) = true →
     truthy (image_url r) = true).
Proof.
  unfold ScraperMcp.get_detailed_info.
  destruct (re_search_profile _) as [id|]; [|done].
  destruct (scrape id) as [e|[d|]]; intros [= <-]; simpl;
    split_and!; try done; apply py_or_truthy.
Qed.

Lemma mcp_unit_keeps_link_witness :
  profile_url (ScraperMcp.basic_info jane_link)
  = Some (ScraperMcp.url jane_link).
Proof.
  exact (proj1 (mcp_unit_keeps_link (scrape_timeout 0) jane_link
                  (ScraperMcp.basic_info jane_link) eq_refl)).
Defined.

End McpFurther.

(** ** Links found in the page source *)

Section Links.

Lemma append_assoc s1 s2 s3 : (s1 +:+ s2) +:+ s3 = s1 +:+ (s2 +:+ s3).
Proof.
  induction s1 as [|c s1 IH]; [done|]. by rewrite !append_cons, IH.
Qed.

Lemma strip_prefix_app sep p rest r :
  strip_prefix sep p = Some r →
  strip_prefix sep (p +:+ rest) = Some (r +:+ rest).
Proof.
  rewrite !strip_prefix_Some. intros ->. apply append_assoc.
Qed.

Lemma occurs_cons sep c s :
  occurs sep (String c s)
  = match strip_prefix sep (String c s) with
    | Some _ => true
    | None => occurs sep s
    end.
Proof. done. Qed.

Lemma occurs_prefix sep p rest :
  occurs sep (p +:+ rest) = false → occurs sep p = false.
Proof.
  induction p as [|c p IH].
  - rewrite append_nil_l. destruct sep as [|a sep]; [|done].
    by destruct rest.
  - rewrite append_cons, !occurs_cons.
    destruct (strip_prefix sep (String c (p +:+ rest))) eqn:Hfull; [done|].
    destruct (strip_prefix sep (String c p)) eqn:Hp; [|done].
    apply (strip_prefix_app _ _ rest) in Hp. rewrite append_cons in Hp.
    congruence.
Qed.

Lemma occurs_app sep pre rest : occurs sep (pre +:+ sep +:+ rest) = true.
Proof.
  induction pre as [|c pre IH].
  - rewrite append_nil_l.
    assert (strip_prefix sep (sep +:+ rest) = Some rest) as Hs.
    { by apply strip_prefix_Some. }
    destruct (sep +:+ rest); simpl in *; by rewrite Hs.
  - rewrite append_cons, occurs_cons, IH. by destruct (strip_prefix _ _).
Qed.

Lemma split_from_cons sep skip s :
  ∃ piece pieces, split_from sep skip s = piece :: pieces.
Proof.
  revert skip. induction s as [|c s IH]; intros skip; simpl; [eauto|].
  destruct skip as [|k]; [|apply IH].
  destruct (strip_prefix sep (String c s)); [eauto|].
  destruct (IH 0) as (p & ps & ->). eauto.
Qed.

(** The first piece is a prefix of the string. *)
Lemma split_from_first sep s piece pieces :
  split_from sep 0 s = piece :: pieces → ∃ rest, s = piece +:+ rest.
Proof.
  revert piece pieces. induction s as [|c s IH]; intros piece pieces; simpl.
  - intros [= <- <-]. by exists EmptyString.
  - destruct (strip_prefix sep (String c s)).
    + intros [= <- <-]. by exists (String c s).
    + destruct (split_from sep 0 s) as [|p ps] eqn:Hs; intros [= <- <-].
      * by exists s.
      * destruct (IH p ps eq_refl) as [rest ->]. by exists rest.
Qed.

(** No piece of a split holds the separator. *)
Lemma split_from_pieces sep skip s :
  sep ≠ EmptyString →
  Forall (λ piece, occurs sep piece = false) (split_from sep skip s).
Proof.
  intros Hsep. revert skip. induction s as [|c s IH]; intros skip; simpl.
  - constructor; [|constructor]. by destruct sep.
  - destruct skip as [|k]; [|apply IH].
    destruct (strip_prefix sep (String c s)) eqn:Hc.
    + constructor; [by destruct sep|apply IH].
    + pose proof (IH 0) as Hall.
      destruct (split_from sep 0 s) as [|p ps] eqn:Hs.
      * destruct (split_from_cons sep 0 s) as (p & ps & Hp). congruence.
      * apply Forall_cons in Hall as [Hp Hps]. constructor; [|done].
        destruct (split_from_first _ _ _ _ Hs) as [rest ->].
        rewrite occurs_cons, Hp.
        destruct (strip_prefix sep (String c p)) eqn:Hcp; [|done].
        apply (strip_prefix_app _ _ rest) in Hcp.
        rewrite append_cons in Hcp. congruence.
Qed.

(** A string without the separator is its own and only piece. *)
Lemma split_from_free sep s :
  occurs sep s = false → split_from sep 0 s = [s].
Proof.
  induction s as [|c s IH]; [done|].
  rewrite occurs_cons. cbn [split_from].
  destruct (strip_prefix sep (String c s)); [done|].
  intros Hs. by rewrite (IH Hs).
Qed.

Lemma occurs_question s :
  occurs "?" s = false ↔ all_chars not_question s = true.
Proof.
  induction s as [|c s IH]; [done|].
  rewrite occurs_cons. cbn [strip_prefix all_chars]. unfold not_question at 1.
  rewrite (Ascii.eqb_sym c "?"). destruct (Ascii.eqb "?" c); [|done].
  split; discriminate.
Qed.

Lemma head_split_question s :
  head (split "?" s) = Some (take_while not_question s).
Proof.
  unfold split. induction s as [|c s IH]; [done|].
  cbn [split_from take_while strip_prefix]. unfold not_question at 1.
  rewrite (Ascii.eqb_sym c "?"). destruct (Ascii.eqb "?" c); [done|].
  cbn [negb]. destruct (split_from "?" 0 s) as [|p ps]; [done|].
  cbn [head] in *. congruence.
Qed.

Lemma link_profile_id_eq m :
  ∃ piece, last (split "/profile/" m) = Some piece
           ∧ occurs "/profile/" piece = false
           ∧ link_profile_id m = take_while not_question piece.
Proof.
  unfold link_profile_id, split.
  pose proof (split_from_pieces "/profile/" 0 m) as Hall.
  destruct (split_from_cons "/profile/" 0 m) as (p & ps & Hs).
  rewrite Hs in *. destruct (last (p :: ps)) as [piece|] eqn:Hlast.
  - exists piece. split; [done|]. split.
    + rewrite Forall_forall in Hall. apply Hall; [done|].
      apply last_Some in Hlast as [l' ->]. apply elem_of_app. right. left.
    + simpl. pose proof (head_split_question piece) as Hh.
      unfold split in Hh. by rewrite Hh.
  - by apply last_None in Hlast.
Qed.

(** X18: the identifier cut out of a link,
    [match.split('/profile/')[-1].split('?')[0]], holds no question mark
    and no [/profile/]; and the address built from it gives it back, so
    cutting and building again changes nothing. *)
Theorem link_profile_id_round_trip (m : string) :
  occurs "?" (link_profile_id m) = false
  ∧ occurs "/profile/" (link_profile_id m) = false
  ∧ link_profile_id (profile_page (link_profile_id m)) = link_profile_id m
  ∧ (∀ profile_id,
       occurs "?" profile_id = false →
       occurs "/profile/" profile_id = false →
       link_profile_id (profile_page profile_id) = profile_id).
Proof.
  assert (∀ profile_id,
            occurs "?" profile_id = false →
            occurs "/profile/" profile_id = false →
            link_profile_id (profile_page profile_id) = profile_id) as Hback.
  { intros pid Hq Hsep. unfold link_profile_id, profile_page, split.
    rewrite !append_cons, append_nil_l. cbn [split_from strip_prefix Ascii.eqb
      Bool.eqb String.length Nat.sub].
    rewrite (split_from_free _ _ Hsep).
    replace (default EmptyString (last ["https://onereal.com"; pid]))
      with pid by done.
    pose proof (head_split_question pid) as Hh. unfold split in Hh.
    rewrite Hh. simpl. apply take_while_all. by apply occurs_question. }
  destruct (link_profile_id_eq m) as (piece & _ & Hfree & Hid).
  destruct (take_while_split not_question piece) as (rest & Hpiece & Hall & _).
  assert (occurs "?" (link_profile_id m) = false) as Hq.
  { rewrite Hid. by apply occurs_question. }
  assert (occurs "/profile/" (link_profile_id m) = false) as Hsep.
  { rewrite Hid. apply (occurs_prefix _ _ rest). by rewrite <-Hpiece. }
  split_and!; auto.
Qed.

End Links.

Section FallbackLinks.

Lemma links_inv_init base : links_inv base [] (mkLinks [] base).
Proof.
  exists []. simpl. split_and!; try done.
  - by rewrite (right_id [] (++)).
  - constructor.
  - intros d. split; [intros H; inversion H|].
    intros (m & Hm & _). inversion Hm.
Qed.

Lemma links_inv_step base ms st m :
  links_inv base ms st → links_inv base (ms ++ [m]) (add_link st m).
Proof.
  intros (added & Hlinks & Hurls & Hnodup & Hlen & Hadded).
  unfold add_link.
  destruct (strip_prefix "/profile/" m) as [r|] eqn:Hm.
  - case_bool_decide as Hseen.
    + exists added. rewrite length_app. simpl. split_and!; try done; [lia|].
      intros d. rewrite Hadded. split.
      * intros (m' & Hm' & Hp & ->). exists m'. rewrite elem_of_app. auto.
      * intros (m' & Hin & Hp & ->).
        apply elem_of_app in Hin as [Hm'|Hm']; [by eauto|].
        apply list_elem_of_singleton in Hm' as ->.
        apply elem_of_reverse in Hseen. rewrite <-Hurls in Hseen.
        apply list_elem_of_fmap in Hseen as (d & Hd & Hin).
        pose proof Hin as Hin'.
        apply Hadded in Hin' as (m' & Hm' & Hp' & ->).
        exists m'. split_and!; [done|done|].
        unfold link_of. simpl in Hd. by rewrite Hd.
    + exists (added ++ [link_of m]). simpl. split_and!.
      * by rewrite Hlinks, (assoc (++)).
      * by rewrite fmap_app, Hurls, reverse_cons.
      * by constructor.
      * rewrite !length_app. simpl. lia.
      * intros d. rewrite elem_of_app, Hadded, list_elem_of_singleton. split.
        -- intros [(m' & Hm' & Hp & ->)| ->].
           ++ exists m'. rewrite elem_of_app. auto.
           ++ exists m. rewrite elem_of_app, list_elem_of_singleton. eauto.
        -- intros (m' & Hin & Hp & ->).
           apply elem_of_app in Hin as [Hm'|Hm']; [by eauto|].
           apply list_elem_of_singleton in Hm' as ->. by right.
  - destruct st as [seen ls]. exists added. rewrite length_app. simpl in *.
    split_and!; try done; [lia|].
    intros d. rewrite Hadded. split.
    + intros (m' & Hm' & Hp & ->). exists m'. rewrite elem_of_app. auto.
    + intros (m' & Hin & Hp & ->).
      apply elem_of_app in Hin as [Hm'|Hm']; [by eauto|].
      apply list_elem_of_singleton in Hm' as ->.
      rewrite Hm in Hp. by destruct Hp.
Qed.

Lemma links_inv_foldl base ms :
  links_inv base ms (foldl add_link (mkLinks [] base) ms).
Proof.
  induction ms as [|m ms IH] using rev_ind.
  - apply links_inv_init.
  - rewrite foldl_app. simpl. by apply links_inv_step.
Qed.

(** X19: the loop over the matches of a page source adds to
    [agent_links_data], behind what is there, one entry for every match
    that starts with [/profile/]: the address built from its identifier,
    with no name and no image.  No address is added twice, so there are at
    most as many new entries as matches; entries that were in the list
    before are not looked at. *)
Theorem fallback_links_distinct
    (agent_links_data : list ScraperMcp.agent_data) (matches : list string) :
  ∃ added,
    fallback_links agent_links_data matches = agent_links_data ++ added
    ∧ NoDup (ScraperMcp.url <$> added)
    ∧ length added ≤ length matches
    ∧ ∀ d, d ∈ added ↔
           ∃ m, m ∈ matches ∧ is_Some (strip_prefix "/profile/" m)
                ∧ d = link_of m.
Proof.
  destruct (links_inv_foldl agent_links_data matches)
    as (added & Hlinks & Hurls & Hnodup & Hlen & Hadded).
  exists added. split_and!; try done.
  by rewrite Hurls, reverse_Permutation.
Qed.

(** X20: whether the detail loop fetches for a link built from a match is
    decided by the first character of the identifier cut out of the match.
    When the identifier starts with a character other than [/], the search
    in the link's address finds the identifier up to its first [/];
    when it is empty or starts with [/], the search finds nothing and the
    detail loop drops the link. *)
Theorem fallback_link_identifier
    (scrape : string → outcome (option AgentInfo)) (m : string) :
  re_search_profile (ScraperMcp.url (link_of m))
  = (if starts_with id_char (link_profile_id m)
     then Some (take_while id_char (link_profile_id m)) else None)
  ∧ (starts_with id_char (link_profile_id m) = false →
     ScraperMcp.get_detailed_info scrape (link_of m) = None)
  ∧ (starts_with id_char (link_profile_id m) = true →
     is_Some (ScraperMcp.get_detailed_info scrape (link_of m))).
Proof.
  destruct (link_profile_id_round_trip m) as (Hq & Hsep & _).
  assert (re_search_profile (ScraperMcp.url (link_of m))
          = if starts_with id_char (link_profile_id m)
            then Some (take_while id_char (link_profile_id m)) else None)
    as Hsearch.
  { unfold link_of, profile_page. cbn [ScraperMcp.url].
    generalize dependent (link_profile_id m). intros pid Hq Hsep.
    rewrite !append_cons, append_nil_l.
    do 19 (cbn [re_search_profile];
           rewrite (proj2 (match_profile_here_None _));
           [|by intros ?? [=]]).
    cbn [re_search_profile]. unfold match_profile_here at 1.
    rewrite (proj2 (strip_prefix_Some "/profile/" _ pid)) by done.
    destruct (starts_with id_char pid) eqn:Hstart.
    - destruct pid as [|c pid]; [done|]. simpl in Hstart. simpl.
      by rewrite Hstart.
    - assert (take_while id_char pid = EmptyString) as ->.
      { destruct pid as [|c pid]; [done|]. simpl in *. by rewrite Hstart. }
      do 7 (cbn [re_search_profile];
            rewrite (proj2 (match_profile_here_None _));
            [|by intros ?? [=]]).
      cbn [re_search_profile].
      rewrite (proj2 (match_profile_here_None _)).
      + apply re_search_profile_None. intros pre c rest Hpid.
        pose proof (occurs_app "/profile/" pre (String c rest)) as Ho.
        rewrite <-Hpid in Ho. congruence.
      + intros c rest Heq. rewrite !append_cons, append_nil_l in Heq.
        injection Heq as ->. simpl in Hstart. done. }
  split_and!; [done|..].
  - intros Hstart. unfold ScraperMcp.get_detailed_info.
    by rewrite Hsearch, Hstart.
  - intros Hstart. unfold ScraperMcp.get_detailed_info.
    rewrite Hsearch, Hstart. destruct (scrape _) as [|[|]]; eauto.
Qed.

End FallbackLinks.

(** ** The endpoints side by side *)

Section Endpoints.

(** X21: the batch endpoint treats a summary as the profile endpoint
    would treat its identifier.  Where [/scrape-profile/<id>] answers with a
    record, the batch merges that record into the summary; where it answers
    404 the batch puts out the summary and counts nothing; where it answers
    500 the batch puts out the summary and counts one failure. *)
Theorem batch_agrees_with_profile_endpoint
    (scrape : string → outcome (option AgentInfo))
    (agent : AgentInfo) (profile_id : string) :
  re_search_profile (or_empty (profile_url agent)) = Some profile_id →
  match get_agent_profile scrape profile_id with
  | Response detailed_info =>
      get_detailed_info scrape agent
      = mkUnit (merge detailed_info agent)
               [scrape_agent_profile_call profile_id] []
  | HTTPException status _ =>
      (status = 404 ∨ status = 500)
      ∧ output (get_detailed_info scrape agent) = agent
      ∧ appended (get_detailed_info scrape agent)
        = (if status =? 500 then [profile_url agent] else [])
  end.
Proof.
  intros Hid. unfold get_agent_profile, get_detailed_info. rewrite Hid.
  destruct (scrape profile_id) as [e|[d|]]; simpl; auto.
Qed.

Lemma batch_agrees_with_profile_endpoint_witness :
  re_search_profile (or_empty (profile_url jane)) = Some "jane"
  ∧ get_detailed_info (scrape_jane 0) jane
    = mkUnit (merge jane_detail jane) [scrape_agent_profile_call "jane"] [].
Proof.
  split; [reflexivity|].
  exact (batch_agrees_with_profile_endpoint (scrape_jane 0) jane "jane"
           eq_refl).
Defined.

(** X22: on the same outcome of the page scraper, [/verify-agent] and
    [/scrape-local-agents] agree: an agent reported as matched is one of the
    agents the listing endpoint lists, and when the scraper raises both
    answer 500 (a request without a field aside, which is answered 400
    before the scraper is called). *)
Theorem verify_agent_matches_listed_agent
    (scrape_local_agents_page : string → outcome (list AgentInfo))
    (agent_details : AgentVerificationRequest) (base_url : string) :
  supplied agent_details →
  match get_local_agents scrape_local_agents_page base_url,
        (verify_agent scrape_local_agents_page agent_details base_url).1 with
  | Response listing, Response verdict =>
      ∀ c, matched_agent verdict = Some c → c ∈ agents listing
  | HTTPException status _, HTTPException status' _ =>
      status = 500 ∧ status' = 500
  | _, _ => False
  end.
Proof.
  intros Hs%any_supplied. unfold get_local_agents, verify_agent.
  fold (query_fields agent_details). rewrite Hs. simpl.
  destruct (scrape_local_agents_page base_url) as [e|scraped_agents]; [done|].
  simpl. destruct (find_match agent_details scraped_agents) as [c|] eqn:Hfind;
    simpl; [|done].
  intros ? [= <-].
  apply find_match_Some in Hfind as (pre & post & -> & _).
  apply elem_of_app. right. left.
Qed.

Lemma verify_agent_matches_listed_agent_witness :
  supplied (mkRequest None (Some "jane@x.com") None None)
  ∧ ∃ verdict,
      (verify_agent (λ _, Returned [jane_detail])
         (mkRequest None (Some "jane@x.com") None None)
         "https://dreproxy.onrender.com").1 = Response verdict
      ∧ ∀ c, matched_agent verdict = Some c → c ∈ [jane_detail].
Proof.
  assert (supplied (mkRequest None (Some "jane@x.com") None None)) as Hs.
  { exists (Some "jane@x.com"). split; [|reflexivity].
    unfold query_fields. simpl. right. left. }
  split; [exact Hs|]. eexists. split; [reflexivity|].
  exact (verify_agent_matches_listed_agent (λ _, Returned [jane_detail])
           (mkRequest None (Some "jane@x.com") None None)
           "https://dreproxy.onrender.com" Hs).
Defined.

(** X23: every listing endpoint that answers with a body reports
    [success] and the length of [agents] as [total_agents]:
    [/scrape-agents], [/scrape-agents-full], [/scrape-agents-full-mcp] and
    [/scrape-local-agents]; and each answers 500, never another status,
    exactly when its scraper raises. *)
Theorem listing_responses_well_formed
    (scrape : string → outcome (list AgentInfo))
    (scrape_agent_profile : profile_scraper) (arg : string)
    (answer : http_result ScrapeResponse) :
  answer = get_all_agents scrape arg
  ∨ answer = get_all_agents_full scrape scrape_agent_profile arg
  ∨ answer = get_all_agents_full_mcp scrape arg
  ∨ answer = get_local_agents scrape arg →
  match answer with
  | Response r =>
      success r = true ∧ total_agents r = length (agents r)
      ∧ is_Some (message r) ∧ ∃ l, scrape arg = Returned l
  | HTTPException status _ => status = 500 ∧ ∃ e, scrape arg = Raised e
  end.
Proof.
  unfold get_all_agents, get_all_agents_full, get_all_agents_full_mcp,
    get_local_agents.
  intros [->|[->|[->| ->]]];
    destruct (scrape arg) as [e|[|a l]]; simpl; eauto 10.
Qed.

Lemma listing_responses_well_formed_witness :
  match get_all_agents_full (λ _, Returned [jane; sam]) scrape_jane "austin"
  with
  | Response r => success r = true ∧ total_agents r = length (agents r)
  | HTTPException _ _ => False
  end.
Proof.
  pose proof (listing_responses_well_formed (λ _, Returned [jane; sam])
                scrape_jane "austin" _ (or_intror (or_introl eq_refl))) as H.
  destruct (get_all_agents_full _ _ _) as [r|status detail].
  - destruct H as (Hs & Ht & _). split; [exact Hs|exact Ht].
  - destruct H as (_ & e & He). discriminate He.
Defined.

End Endpoints.

Example split_examples :
  split "?" "a?b?c" = ["a"; "b"; "c"]
  ∧ split "aa" "aaa" = [EmptyString; "a"]
  ∧ split "/profile/" "/profile/jane?tab=1" = [EmptyString; "jane?tab=1"]
  ∧ link_profile_id "/profile/jane?tab=1" = "jane"
  ∧ link_profile_id "/profile/jane/reviews" = "jane/reviews"
  ∧ ScraperMcp.url <$> fallback_links []
      ["/profile/jane"; "/agents/x"; "/profile/jane?tab=1"; "/profile/sam"]
    = ["https://onereal.com/profile/jane"; "https://onereal.com/profile/sam"].
Proof. by vm_compute. Qed.
